(** * EndeeSync RAG system: chunking, storage, retrieval and generation

    A shallow embedding of the orchestration core of the repository
    ([src/ingest.py], [src/embed.py], [src/store.py], [src/retrieve.py],
    [src/rag.py], [src/api_handlers.py], [src/config.py], and the health
    check of [api.py]) and the properties the specification states
    about it, followed by further properties read off the code.

    Conventions of the embedding:
    - a Python [str] is a list of characters ([list ascii]); a character
      stands for a code point below 256, with Python's own notion of
      white space on that range;
    - a Python [int] is a [Z]; indices and slices follow Python's rules,
      negative indices included;
    - a Python [float] is a binary64 [float];
    - a [dict] with string keys is a [gmap string pyval];
    - calls that leave the process (embedding model, vector store, LLM
      providers, clock, uuid) append an event to a history and take their
      answer from an environment that may depend on that history;
    - an exception is an error result carrying the exception's type name
      and message; [try]/[except Exception] is [try_catch]. *)

From Stdlib Require Import ZArith List String Ascii Floats DecimalString Lia.
From stdpp Require Import gmap strings list.

Set Warnings "-register-all,-inexact-float".

Local Open Scope Z_scope.

(** ** Python strings and sequences *)

Module PyStr.

Definition str := list ascii.

(** A literal. *)
Definition lit (s : string) : str := list_ascii_of_string s.

Definition len {A} (s : list A) : Z := Z.of_nat (length s).

(** [str.isspace] on one character, for code points below 256:
    TAB..CR, FS..US, space, NEL and NBSP. *)
Definition is_space (c : ascii) : bool :=
  let n := nat_of_ascii c in
  ((9 <=? n) && (n <=? 13))%nat || ((28 <=? n) && (n <=? 32))%nat
  || (n =? 133)%nat || (n =? 160)%nat.

Fixpoint lstrip (s : str) : str :=
  match s with
  | c :: s' => if is_space c then lstrip s' else s
  | [] => []
  end.

Definition rstrip (s : str) : str := rev (lstrip (rev s)).

(** [s.strip()] *)
Definition strip (s : str) : str := rstrip (lstrip s).

(** How a slice bound is read against a sequence of length [n]:
    a negative bound counts from the end, and every bound is clamped
    to [0..n]. *)
Definition norm_idx (n i : Z) : Z :=
  if i <? 0 then Z.max 0 (i + n) else Z.min i n.

(** [s[i:j]] *)
Definition slice {A} (s : list A) (i j : Z) : list A :=
  let i' := norm_idx (len s) i in
  let j' := norm_idx (len s) j in
  firstn (Z.to_nat (j' - i')) (skipn (Z.to_nat i') s).

(** [s[:j]] *)
Definition slice_to {A} (s : list A) (j : Z) : list A := slice s 0 j.

Fixpoint starts_with (sub s : str) : bool :=
  match sub, s with
  | [], _ => true
  | a :: sub', b :: s' => Ascii.eqb a b && starts_with sub' s'
  | _ :: _, [] => false
  end.

(** Does [sub] occur in [s] at offset [i]? *)
Definition occurs_at (sub s : str) (i : nat) : bool :=
  starts_with sub (skipn i s).

(** The highest offset among [lo, lo+1, ..., lo+k-1] at which [sub]
    occurs, or [-1]. *)
Fixpoint rfind_from (sub s : str) (lo k : nat) : Z :=
  match k with
  | O => -1
  | S k' =>
      if occurs_at sub s (lo + k') then Z.of_nat (lo + k')
      else rfind_from sub s lo k'
  end.

(** [s.rfind(sub, i, j)]: the highest index of an occurrence of [sub]
    lying inside [s[i:j]], or [-1]. *)
Definition rfind (s sub : str) (i j : Z) : Z :=
  let i' := norm_idx (len s) i in
  let j' := norm_idx (len s) j in
  if j' - len sub <? i' then -1
  else rfind_from sub s (Z.to_nat i') (Z.to_nat (j' - len sub - i' + 1)).

(** [s.replace(a, b)] for one-character [a] and [b]. *)
Definition replace_char (a b : ascii) (s : str) : str :=
  map (fun c => if Ascii.eqb c a then b else c) s.

(** [s.split(sep)] for a non-empty [sep]: [cur] holds the piece being
    read (reversed), [skip] the characters of a separator still to be
    passed over. *)
Fixpoint split_go (sep s cur : str) (skip : nat) : list str :=
  match s with
  | [] => [rev cur]
  | c :: s' =>
      match skip with
      | S k => split_go sep s' cur k
      | O =>
          if starts_with sep s
          then rev cur :: split_go sep s' [] (length sep - 1)
          else split_go sep s' (c :: cur) O
      end
  end.

Definition split (s sep : str) : list str := split_go sep s [] O.

(** [str.lower] on one character (code points below 256). *)
Definition lower_char (c : ascii) : ascii :=
  let n := nat_of_ascii c in
  if (((65 <=? n) && (n <=? 90)) ||
      ((192 <=? n) && (n <=? 222) && negb (n =? 215)))%nat
  then ascii_of_nat (n + 32) else c.

Definition lower (s : str) : str := map lower_char s.

(** [sub in s] *)
Fixpoint contains (sub s : str) : bool :=
  starts_with sub s ||
  match s with
  | [] => false
  | _ :: s' => contains sub s'
  end.

(** [str(n)] for an [int]. *)
Definition of_Z (n : Z) : str := lit (NilZero.string_of_int (Z.to_int n)).

End PyStr.

Import PyStr.

(** ** Values, exceptions and effects *)

Module Py.

(** The Python values that travel through the pipeline. *)
Inductive pyval :=
| VNone
| VBool (b : bool)
| VInt (z : Z)
| VFloat (f : float)
| VStr (s : str)
| VList (l : list pyval)
| VDict (d : gmap string pyval).

Abbreviation dict := (gmap string pyval).

(** An exception: the name of its class and [str(e)]. *)
Record exn := Raise { exn_type : string; exn_msg : str }.

Inductive result (A : Type) :=
| Ok (a : A)
| Err (e : exn).
Arguments Ok {A} a.
Arguments Err {A} e.

(** A handle on an index of the vector store. *)
Definition handle := nat.

Inductive provider := OpenAI | Groq | LocalLLM.

#[global] Instance provider_eq_dec : EqDecision provider.
Proof. solve_decision. Defined.

(** The calls that leave the process, indexed by the type of their
    answer. Obtaining the client or model singleton
    ([get_endee_client], [get_embedding_model], [get_openai_client],
    ...) is part of the call that follows it: its failure is the
    call's failure. *)
Inductive call : Type -> Type :=
| Encode (text : str) : call (list float)
| ListIndexes : call (list str)
| CreateIndex (name : str) (dimension : Z) (space_type precision : str)
    (M ef_con : Z) : call unit
| GetIndex (name : str) : call handle
| Describe (index : handle) : call pyval
| Query (index : handle) (vector : list float) (top_k ef : Z)
    (filter : option dict) : call (list pyval)
| Upsert (index : handle) (batch : list pyval) : call unit
| LLM (p : provider) (prompt : str) : call str
| Uuid4 : call str
| Time : call float
| NowIso : call str.

Inductive event := Ev : forall T : Type, call T -> event.
Arguments Ev {T} c.

(** The world outside: what each call answers after a given history,
    and the two formatting builtins the code relies on. *)
Class World := {
  respond : forall T, list event -> call T -> result T;
  py_str : pyval -> str;          (* str(v) *)
  fmt_2f : float -> str           (* f"{x:.2f}" *)
}.

(** A computation reads and extends the history of calls, and ends
    with a value or an exception. *)
Definition M (A : Type) := list event -> result A * list event.

Definition ret {A} (a : A) : M A := fun h => (Ok a, h).

Definition bind {A B} (m : M A) (k : A -> M B) : M B :=
  fun h =>
    match m h with
    | (Ok a, h') => k a h'
    | (Err e, h') => (Err e, h')
    end.

Definition raise {A} (e : exn) : M A := fun h => (Err e, h).

Definition lift {A} (r : result A) : M A := fun h => (r, h).

(** [try: m  except Exception as e: handler(e)] *)
Definition try_catch {A} (m : M A) (handler : exn -> M A) : M A :=
  fun h =>
    match m h with
    | (Ok a, h') => (Ok a, h')
    | (Err e, h') => handler e h'
    end.

Definition perform `{World} {T} (c : call T) : M T :=
  fun h => (respond T h c, h ++ [Ev c]).

(** [for x in l: body(x)] *)
Fixpoint for_each {A} (l : list A) (body : A -> M unit) : M unit :=
  match l with
  | [] => ret tt
  | x :: l' => bind (body x) (fun _ => for_each l' body)
  end.

(** [[f(x) for x in l]] when [f] has effects. *)
Fixpoint map_M {A B} (f : A -> M B) (l : list A) : M (list B) :=
  match l with
  | [] => ret []
  | x :: l' =>
      bind (f x) (fun y => bind (map_M f l') (fun ys => ret (y :: ys)))
  end.

(** [enumerate(l, start)] *)
Fixpoint enumerate {A} (start : Z) (l : list A) : list (Z * A) :=
  match l with
  | [] => []
  | x :: l' => (start, x) :: enumerate (start + 1) l'
  end.

(** [range(start, stop, step)] *)
Definition range (start stop step : Z) : result (list Z) :=
  if step =? 0 then
    Err (Raise "ValueError" (lit "range() arg 3 must not be zero"))
  else
    let n :=
      if 0 <? step
      then (if start <? stop then (stop - start - 1) / step + 1 else 0)
      else (if stop <? start then (start - stop - 1) / (- step) + 1 else 0) in
    Ok (map (fun k => start + Z.of_nat k * step) (seq 0 (Z.to_nat n))).

(** [d.get(key, default)] *)
Definition get (d : dict) (key : string) (default : pyval) : pyval :=
  match d !! key with
  | Some v => v
  | None => default
  end.

(** [v.get(key, default)] on a value that need not be a [dict]. *)
Definition vget (v : pyval) (key : string) (default : pyval) : M pyval :=
  match v with
  | VDict d => ret (get d key default)
  | _ => raise (Raise "AttributeError" (lit "object has no attribute 'get'"))
  end.

(** [v[key]] for a string key. *)
Definition getitem (v : pyval) (key : string) : M pyval :=
  match v with
  | VDict d =>
      match d !! key with
      | Some x => ret x
      | None => raise (Raise "KeyError" (lit key))
      end
  | _ => raise (Raise "TypeError" (lit "object is not subscriptable by str"))
  end.

(** [z >= t] for an [int] and a [float]: Python compares the two
    numbers exactly. *)
Definition Z_ge_float (z : Z) (t : float) : bool :=
  match Prim2SF t with
  | S754_nan => false
  | S754_infinity s => s
  | S754_zero _ => 0 <=? z
  | S754_finite s m e =>
      let v := if s then Z.neg m else Z.pos m in
      if 0 <=? e then v * 2 ^ e <=? z else v <=? z * 2 ^ (- e)
  end.

(** [v >= t] for a [float] [t]. *)
Definition ge_float (v : pyval) (t : float) : M bool :=
  match v with
  | VFloat f => ret (PrimFloat.leb t f)
  | VInt z => ret (Z_ge_float z t)
  | VBool b => ret (Z_ge_float (if b then 1 else 0) t)
  | _ =>
      raise (Raise "TypeError"
               (lit "'>=' not supported between instances"))
  end.

(** Whether [f"{v:.4f}"] can be formatted. *)
Definition format_4f (v : pyval) : M unit :=
  match v with
  | VFloat _ | VInt _ | VBool _ => ret tt
  | VStr _ =>
      raise (Raise "ValueError" (lit "Unknown format code 'f'"))
  | _ =>
      raise (Raise "TypeError" (lit "unsupported format string"))
  end.

(** [for x in v]: the items a value yields when iterated over. A dict
    yields its keys; the order in which it does, the order of insertion
    in Python, is not modelled. *)
Definition iterate (v : pyval) : M (list pyval) :=
  match v with
  | VList l => ret l
  | VStr s => ret (map (fun c => VStr [c]) s)
  | VDict d => ret (map (fun kv => VStr (lit (fst kv))) (map_to_list d))
  | _ => raise (Raise "TypeError" (lit "object is not iterable"))
  end.

(** [sep.join(items)]: every item has to be a [str]. *)
Fixpoint join_values (sep : str) (items : list pyval) : M str :=
  match items with
  | [] => ret []
  | VStr s :: rest =>
      bind (join_values sep rest)
        (fun tail => ret (match rest with [] => s | _ => s ++ sep ++ tail end))
  | _ :: _ =>
      raise (Raise "TypeError" (lit "sequence item: expected str instance"))
  end.

Declare Scope py_scope.
Delimit Scope py_scope with py.
Notation "x <- m ;; k" := (bind m (fun x => k))
  (at level 100, m at next level, right associativity) : py_scope.
Notation "m ;;; k" := (bind m (fun _ => k))
  (at level 100, right associativity) : py_scope.

End Py.

Import Py.
Local Open Scope py_scope.

(** ** [src/config.py] *)

Module Config.

(** The settings read from the process environment. *)
Record t := {
  OPENAI_API_KEY : str;
  GROQ_API_KEY : str
}.

Definition ENDEE_INDEX_NAME : str := lit "rag_documents".
Definition VECTOR_DIMENSION : Z := 384.
Definition SPACE_TYPE : str := lit "cosine".
Definition PRECISION : str := lit "INT8D".
Definition HNSW_M : Z := 16.
Definition HNSW_EF_CON : Z := 128.
Definition CHUNK_SIZE : Z := 512.
Definition CHUNK_OVERLAP : Z := 50.
Definition DEFAULT_TOP_K : Z := 5.
Definition DEFAULT_EF : Z := 128.

(** [bool(s)] for a string. *)
Definition truthy (s : str) : bool :=
  match s with [] => false | _ => true end.

Definition USE_OPENAI (cfg : t) : bool := truthy (OPENAI_API_KEY cfg).
Definition USE_GROQ (cfg : t) : bool := truthy (GROQ_API_KEY cfg).
Definition USE_LOCAL_LLM (cfg : t) : bool :=
  negb (USE_OPENAI cfg || USE_GROQ cfg).

Definition nl : str := [ascii_of_nat 10].

(** [RAG_PROMPT_TEMPLATE.format(context=..., query=...)] *)
Definition RAG_PROMPT_TEMPLATE (context query : str) : str :=
  lit "Context information is below:" ++ nl ++ lit "---" ++ nl
  ++ context ++ nl ++ lit "---" ++ nl ++ nl
  ++ lit "Given the context above, answer the following question. If the context doesn't contain relevant information to answer the question, say "
  ++ [ascii_of_nat 34]
  ++ lit "I don't have enough information in the provided context to answer this question."
  ++ [ascii_of_nat 34] ++ nl ++ nl
  ++ lit "Question: " ++ query ++ nl ++ nl ++ lit "Answer:".

End Config.

(** ** [src/ingest.py] *)

Module Ingest.

(** The sentence boundaries tried in turn by the [for ... else]. *)
Definition boundary_chars : list str :=
  [lit ". "; lit "! "; lit "? "; [ascii_of_nat 10; ascii_of_nat 10]].

(** The [for boundary_char in ...] loop: the new [end] of the first
    boundary found by [rfind], or [None] when the loop runs to its
    [else]. *)
Fixpoint find_boundary (text : str) (lo hi : Z) (bs : list str) : option Z :=
  match bs with
  | [] => None
  | b :: bs' =>
      let boundary_idx := rfind text b lo hi in
      if boundary_idx =? -1 then find_boundary text lo hi bs'
      else Some (boundary_idx + len b)
  end.

(** The value of [end] once the boundary adjustment is done. *)
Definition adjust_end (text : str) (chunk_size start : Z) : Z :=
  let end_ := start + chunk_size in
  if end_ <? len text then
    match find_boundary text (start + chunk_size / 2) end_ boundary_chars with
    | Some e => e
    | None =>
        let space_idx := rfind text (lit " ") start end_ in
        if negb (space_idx =? -1) && (start <? space_idx)
        then space_idx else end_
    end
  else end_.

(** One pass through the body of the [while] loop, on the loop's two
    variables. *)
Definition chunk_step (text : str) (chunk_size overlap : Z)
    (st : list str * Z) : list str * Z :=
  let '(chunks, start) := st in
  let end_ := adjust_end text chunk_size start in
  let chunk := strip (slice text start end_) in
  let chunks := match chunk with [] => chunks | _ => chunks ++ [chunk] end in
  let start := end_ - overlap in
  let guard :=
    match chunks with
    | [] => false
    | _ => start <=? len (slice_to (List.last chunks []) overlap)
    end in
  (chunks, if guard then end_ else start).

(** The [while start < text_length] loop, cut off after [fuel] passes. *)
Fixpoint chunk_loop (fuel : nat) (text : str) (chunk_size overlap : Z)
    (st : list str * Z) : option (list str) :=
  if snd st <? len text then
    match fuel with
    | O => None
    | S fuel' =>
        chunk_loop fuel' text chunk_size overlap
          (chunk_step text chunk_size overlap st)
    end
  else Some (fst st).

(** [chunk_text(text, chunk_size, overlap)]; [None] when the loop has
    not ended within [fuel] passes. *)
Definition chunk_text (fuel : nat) (text : str) (chunk_size overlap : Z)
    : option (list str) :=
  match text with
  | [] => Some []
  | _ => chunk_loop fuel text chunk_size overlap ([], 0)
  end.

End Ingest.


(** ** [src/embed.py] *)

Module Embed.
Section Embed.
Context `{World}.

(** [embed_query(query)]: the empty array for an empty or blank
    query, the model's vector otherwise. *)
Definition embed_query (query : str) : M (list float) :=
  match query, strip query with
  | [], _ | _, [] => ret []
  | _, _ => try_catch (perform (Encode query)) raise
  end.

End Embed.
End Embed.

(** ** [src/store.py] *)

Module Store.
Section Store.
Context `{World}.

(** [initialize_endee_index(index_name)] *)
Definition initialize_endee_index (index_name : option str) : M handle :=
  let index_name := default Config.ENDEE_INDEX_NAME index_name in
  try_catch
    (existing_indexes <- perform ListIndexes ;;
     index <-
       (if bool_decide (index_name ∈ existing_indexes)
        then perform (GetIndex index_name)
        else
          try_catch
            (perform (CreateIndex index_name Config.VECTOR_DIMENSION
                        Config.SPACE_TYPE Config.PRECISION
                        Config.HNSW_M Config.HNSW_EF_CON))
            (fun create_error =>
               if contains (lit "already exists")
                    (lower (exn_msg create_error))
               then ret tt
               else raise create_error) ;;;
          perform (GetIndex index_name)) ;;
     perform (Describe index) ;;;
     ret index)
    raise.

(** [batch_upsert(index, vectors, batch_size)] *)
Definition batch_upsert (index : handle) (vectors : list pyval)
    (batch_size : Z) : M unit :=
  let total_vectors := len vectors in
  starts <- lift (range 0 total_vectors batch_size) ;;
  for_each starts
    (fun i =>
       let batch := slice vectors i (i + batch_size) in
       try_catch (perform (Upsert index batch)) raise).

(** The record built for one chunk by [store_embeddings]. *)
Definition vector_obj (chunk : pyval) : M pyval :=
  id <- getitem chunk "id" ;;
  embedding <- getitem chunk "embedding" ;;
  text <- getitem chunk "text" ;;
  md <- getitem chunk "metadata" ;;
  source <- getitem md "source" ;;
  md <- getitem chunk "metadata" ;;
  chunk_index <- getitem md "chunk_index" ;;
  md <- getitem chunk "metadata" ;;
  total_chunks <- getitem md "total_chunks" ;;
  ret (VDict {[ "id" := id;
                "vector" := embedding;
                "meta" := VDict {[ "text" := text;
                                   "source" := source;
                                   "chunk_index" := chunk_index;
                                   "total_chunks" := total_chunks ]} ]}).

(** [store_embeddings(chunks, index_name)] *)
Definition store_embeddings (chunks : list pyval)
    (index_name : option str) : M unit :=
  index <- initialize_endee_index index_name ;;
  vectors <- map_M vector_obj chunks ;;
  batch_upsert index vectors 1000.

End Store.
End Store.

(** ** [src/retrieve.py] *)

Module Retrieve.
Section Retrieve.
Context `{World}.

(** One entry of [format_results]. *)
Definition format_result (result : pyval) : M dict :=
  id <- vget result "id" VNone ;;
  similarity <- vget result "similarity" VNone ;;
  distance <- vget result "distance" VNone ;;
  meta <- vget result "meta" (VDict ∅) ;;
  text <- vget meta "text" (VStr []) ;;
  meta <- vget result "meta" (VDict ∅) ;;
  source <- vget meta "source" (VStr []) ;;
  meta <- vget result "meta" (VDict ∅) ;;
  chunk_index <- vget meta "chunk_index" (VInt 0) ;;
  ret ({[ "id" := id;
          "similarity" := similarity;
          "distance" := distance;
          "text" := text;
          "source" := source;
          "chunk_index" := chunk_index ]} : dict).

(** [format_results(raw_results)] *)
Definition format_results (raw_results : list pyval) : M (list dict) :=
  map_M format_result raw_results.

(** [retrieve_context(query, top_k, ef, index_name)] *)
Definition retrieve_context (query : str) (top_k ef : option Z)
    (index_name : option str) : M (list dict) :=
  let top_k := default Config.DEFAULT_TOP_K top_k in
  let ef := default Config.DEFAULT_EF ef in
  let index_name := default Config.ENDEE_INDEX_NAME index_name in
  try_catch
    (query_embedding <- Embed.embed_query query ;;
     match query_embedding with
     | [] => ret []
     | _ =>
         index <- Store.initialize_endee_index (Some index_name) ;;
         raw_results <- perform (Query index query_embedding top_k ef None) ;;
         formatted_results <- format_results raw_results ;;
         match formatted_results with
         | top_result :: _ =>
             (* the log line formats the top similarity with [.4f] *)
             similarity <- getitem (VDict top_result) "similarity" ;;
             format_4f similarity
         | [] => ret tt
         end ;;;
         ret formatted_results
     end)
    raise.

(** [retrieve_with_filter(query, filters, top_k, ef, index_name)] *)
Definition retrieve_with_filter (query : str) (filters : dict)
    (top_k ef : option Z) (index_name : option str) : M (list dict) :=
  let top_k := default Config.DEFAULT_TOP_K top_k in
  let ef := default Config.DEFAULT_EF ef in
  let index_name := default Config.ENDEE_INDEX_NAME index_name in
  try_catch
    (query_embedding <- Embed.embed_query query ;;
     index <- Store.initialize_endee_index (Some index_name) ;;
     raw_results <-
       perform (Query index query_embedding top_k ef (Some filters)) ;;
     formatted_results <- format_results raw_results ;;
     ret formatted_results)
    raise.

End Retrieve.
End Retrieve.

(** ** [src/rag.py] *)

Module Rag.
Section Rag.
Context `{World}.
Variable cfg : Config.t.

(** [sep.join(parts)] *)
Fixpoint join (sep : str) (parts : list str) : str :=
  match parts with
  | [] => []
  | [p] => p
  | p :: rest => p ++ sep ++ join sep rest
  end.

(** [construct_prompt(query, context_chunks)] *)
Definition construct_prompt (query : str) (context_chunks : list dict) : str :=
  let context_parts :=
    map (fun '(i, chunk) =>
           let source := get chunk "source" (VStr (lit "unknown")) in
           let text := get chunk "text" (VStr []) in
           lit "[" ++ of_Z i ++ lit "] From " ++ py_str source
           ++ lit ":" ++ Config.nl ++ py_str text)
        (enumerate 1 context_chunks) in
  let context_str := join (Config.nl ++ Config.nl) context_parts in
  Config.RAG_PROMPT_TEMPLATE context_str query.

Definition call_openai_llm (prompt : str) : M str :=
  try_catch (perform (LLM OpenAI prompt)) raise.

Definition call_local_llm (prompt : str) : M str :=
  try_catch (perform (LLM LocalLLM prompt)) raise.

Definition call_groq_llm (prompt : str) : M str :=
  try_catch (perform (LLM Groq prompt)) raise.

(** [call_llm(prompt)]: a [return] inside a [try] leaves the function;
    an exception leaves the [try] and goes on to the next statement. *)
Definition call_llm (prompt : str) : M str :=
  let after_openai :=
    let after_groq := call_local_llm prompt in
    if Config.USE_GROQ cfg
    then try_catch (call_groq_llm prompt) (fun _ => after_groq)
    else after_groq in
  if Config.USE_OPENAI cfg
  then try_catch (call_openai_llm prompt) (fun _ => after_openai)
  else after_openai.

Definition no_context_answer : str :=
  lit "I couldn't find any relevant information to answer your question.".

(** The [excerpt] entry of a source. *)
Definition excerpt (text : pyval) : M pyval :=
  let not_sized := Raise "TypeError" (lit "object has no len()") in
  let bad_slice := Raise "TypeError" (lit "cannot slice and concatenate") in
  match text with
  | VStr s =>
      if 150 <? len s then ret (VStr (slice_to s 150 ++ lit "..."))
      else ret text
  | VList l => if 150 <? len l then raise bad_slice else ret text
  | VDict d =>
      if 150 <? Z.of_nat (size d) then raise bad_slice else ret text
  | _ => raise not_sized
  end.

(** One entry of [sources]. *)
Definition source_entry (chunk : dict) : M pyval :=
  source <- getitem (VDict chunk) "source" ;;
  chunk_index <- getitem (VDict chunk) "chunk_index" ;;
  similarity <- getitem (VDict chunk) "similarity" ;;
  text <- getitem (VDict chunk) "text" ;;
  ex <- excerpt text ;;
  ret (VDict {[ "source" := source;
                "chunk_index" := chunk_index;
                "similarity" := similarity;
                "excerpt" := ex ]}).

(** [generate_answer(query, top_k, ef, index_name, include_sources)] *)
Definition generate_answer (query : str) (top_k ef : option Z)
    (index_name : option str) (include_sources : bool) : M dict :=
  let top_k := default Config.DEFAULT_TOP_K top_k in
  try_catch
    (context_chunks <-
       Retrieve.retrieve_context query (Some top_k) ef index_name ;;
     match context_chunks with
     | [] =>
         ret ({[ "answer" := VStr no_context_answer;
                 "sources" := VList [];
                 "num_chunks" := VInt 0 ]} : dict)
     | _ =>
         let prompt := construct_prompt query context_chunks in
         answer <- call_llm prompt ;;
         let response : dict :=
           {[ "answer" := VStr answer;
              "num_chunks" := VInt (len context_chunks) ]} in
         if include_sources then
           sources <- map_M source_entry context_chunks ;;
           ret (<["sources" := VList sources]> response)
         else ret response
     end)
    raise.

End Rag.
End Rag.

(** ** [src/api_handlers.py] *)

Module ApiHandlers.
Section ApiHandlers.
Context `{World}.

(** The body of [for sentence in sentences], on [(chunks,
    current_chunk)]. *)
Definition add_sentence (max_chunk_size : Z) (st : list str * str)
    (sentence : str) : list str * str :=
  let '(chunks, current_chunk) := st in
  let sentence := strip sentence in
  match sentence with
  | [] => st
  | _ =>
      if len current_chunk + len sentence <? max_chunk_size
      then (chunks, current_chunk ++ sentence ++ lit ". ")
      else
        (match current_chunk with
         | [] => chunks
         | _ => chunks ++ [strip current_chunk]
         end,
         sentence ++ lit ". ")
  end.

(** [chunk_text(text, max_chunk_size)] *)
Definition chunk_text (text : str) (max_chunk_size : Z) : list str :=
  let sentences :=
    split (replace_char (ascii_of_nat 10) " "%char text) (lit ". ") in
  let '(chunks, current_chunk) :=
    fold_left (add_sentence max_chunk_size) sentences ([], []) in
  let chunks :=
    match current_chunk with
    | [] => chunks
    | _ => chunks ++ [strip current_chunk]
    end in
  match chunks with
  | [] => [text]
  | _ => chunks
  end.

(** The record built for one chunk by [ingest_document]. *)
Definition ingest_vector (document_id : str) (source : option str)
    (tags : option (list str)) (metadata : option dict)
    (entry : Z * str) : M pyval :=
  let '(idx, chunk) := entry in
  embedding <- Embed.embed_query chunk ;;
  timestamp <- perform NowIso ;;
  let base : dict :=
    {[ "document_id" := VStr document_id;
       "chunk_index" := VInt idx;
       "source" := VStr (match source with
                         | Some (_ :: _ as s) => s
                         | _ => lit "unknown"
                         end);
       "tags" := VList (VStr <$> default [] tags);
       "text" := VStr chunk;
       "timestamp" := VStr timestamp ]} in
  let chunk_metadata : dict := default ∅ metadata ∪ base in
  ret (VDict {[ "id" := VStr (document_id ++ lit "_" ++ of_Z idx);
                "vector" := VList (VFloat <$> embedding);
                "meta" := VDict chunk_metadata ]}).

(** [ingest_document(text, source, tags, metadata)] *)
Definition ingest_document (text : str) (source : option str)
    (tags : option (list str)) (metadata : option dict) : M dict :=
  start_time <- perform Time ;;
  document_id <- perform Uuid4 ;;
  let chunks := chunk_text text Config.CHUNK_SIZE in
  index <- Store.initialize_endee_index (Some (lit "rag_documents")) ;;
  vectors <-
    map_M (ingest_vector document_id source tags metadata)
      (enumerate 0 chunks) ;;
  perform (Upsert index vectors) ;;;
  now <- perform Time ;;
  let elapsed := (now - start_time)%float in
  ret ({[ "document_id" := VStr document_id;
          "chunk_count" := VInt (len chunks);
          "message" := VStr (lit "Document ingested successfully in "
                             ++ fmt_2f elapsed ++ lit "s") ]} : dict).

(** One entry of the result list of [search_semantic]. *)
Definition search_hit (ctx : dict) : pyval :=
  VDict {[ "text" := get ctx "text" (VStr []);
           "score" := get ctx "similarity" (VFloat 0);
           "source" := get ctx "source" (VStr (lit "unknown"));
           "tags" := get ctx "tags" (VList []) ]}.

(** The comprehension
    [[hit(ctx) for ctx in context_results
      if ctx.get("similarity", 0.0) >= threshold]]. *)
Fixpoint filter_by_threshold (threshold : float) (context_results : list dict)
    : M (list pyval) :=
  match context_results with
  | [] => ret []
  | ctx :: rest =>
      keep <- ge_float (get ctx "similarity" (VFloat 0)) threshold ;;
      results <- filter_by_threshold threshold rest ;;
      ret (if keep then search_hit ctx :: results else results)
  end.

(** [if filters:] *)
Definition has_filters (filters : option dict) : option dict :=
  match filters with
  | Some d => if bool_decide (size d = 0%nat) then None else Some d
  | None => None
  end.

(** [search_semantic(query, top_k, threshold, filters)] *)
Definition search_semantic (query : str) (top_k : Z) (threshold : float)
    (filters : option dict) : M dict :=
  start_time <- perform Time ;;
  context_results <-
    match has_filters filters with
    | Some d => Retrieve.retrieve_with_filter query d (Some top_k) None None
    | None => Retrieve.retrieve_context query (Some top_k) None None
    end ;;
  results <- filter_by_threshold threshold context_results ;;
  now <- perform Time ;;
  let total_time := ((now - start_time) * 1000)%float in
  ret ({[ "results" := VList results;
          "total" := VInt (len results);
          "timings" := VDict {[ "total_request_ms" := VFloat total_time ]} ]}
       : dict).

Variable cfg : Config.t.

(** One entry of the [sources] of [query_rag]. *)
Definition rag_source (src : pyval) : M pyval :=
  text <- vget src "text" (VStr []) ;;
  score <- vget src "similarity" (VFloat 0) ;;
  source <- vget src "source" (VStr (lit "unknown")) ;;
  tags <- vget src "tags" (VList []) ;;
  ret (VDict {[ "text" := text;
                "score" := score;
                "source" := source;
                "tags" := tags ]}).

(** [query_rag(question, top_k, include_sources, filters)] *)
Definition query_rag (question : str) (top_k : Z) (include_sources : bool)
    (filters : option dict) : M dict :=
  start_time <- perform Time ;;
  retrieval_start <- perform Time ;;
  context_results <-
    match has_filters filters with
    | Some d => Retrieve.retrieve_with_filter question d (Some top_k) None None
    | None => Retrieve.retrieve_context question (Some top_k) None None
    end ;;
  retrieval_end <- perform Time ;;
  let retrieval_time := ((retrieval_end - retrieval_start) * 1000)%float in
  llm_start <- perform Time ;;
  result <- Rag.generate_answer cfg question (Some top_k) None None true ;;
  llm_end <- perform Time ;;
  let llm_time := ((llm_end - llm_start) * 1000)%float in
  total_end <- perform Time ;;
  let total_time := ((total_end - start_time) * 1000)%float in
  sources <-
    (if include_sources && bool_decide (is_Some (result !! "sources"))
     then
       items <- iterate (get result "sources" (VList [])) ;;
       map_M rag_source items
     else ret []) ;;
  ret ({[ "answer" := get result "answer" (VStr []);
          "sources" := VList sources;
          "timings" := VDict {[ "total_request_ms" := VFloat total_time;
                                "retrieval_ms" := VFloat retrieval_time;
                                "llm_generation_ms" := VFloat llm_time ]} ]}
       : dict).

(** The prompt [summarize_topic] builds. *)
Definition summary_prompt (topic : str) (max_length : Z) (context_text : str)
    : str :=
  lit "Based on the following information, provide a comprehensive summary about "
  ++ [ascii_of_nat 34] ++ topic ++ [ascii_of_nat 34] ++ lit ". " ++ Config.nl
  ++ lit "Maximum length: " ++ of_Z max_length ++ lit " words." ++ Config.nl
  ++ Config.nl ++ lit "Context:" ++ Config.nl ++ context_text ++ Config.nl
  ++ Config.nl ++ lit "Summary:".

(** [summarize_topic(topic, top_k, max_length, filters)] *)
Definition summarize_topic (topic : str) (top_k max_length : Z)
    (filters : option dict) : M dict :=
  start_time <- perform Time ;;
  retrieval_start <- perform Time ;;
  context_results <-
    match has_filters filters with
    | Some d => Retrieve.retrieve_with_filter topic d (Some top_k) None None
    | None => Retrieve.retrieve_context topic (Some top_k) None None
    end ;;
  retrieval_end <- perform Time ;;
  let retrieval_time := ((retrieval_end - retrieval_start) * 1000)%float in
  context_text <-
    join_values (Config.nl ++ Config.nl)
      (map (fun ctx => get ctx "text" (VStr [])) context_results) ;;
  let prompt := summary_prompt topic max_length context_text in
  llm_start <- perform Time ;;
  summary <- Rag.call_llm cfg prompt ;;
  llm_end <- perform Time ;;
  let llm_time := ((llm_end - llm_start) * 1000)%float in
  total_end <- perform Time ;;
  let total_time := ((total_end - start_time) * 1000)%float in
  ret ({[ "summary" := VStr summary;
          "topic" := VStr topic;
          "chunk_count" := VInt (len context_results);
          "timings" := VDict {[ "total_request_ms" := VFloat total_time;
                                "retrieval_ms" := VFloat retrieval_time;
                                "llm_generation_ms" := VFloat llm_time ]} ]}
       : dict).

End ApiHandlers.
End ApiHandlers.

(** ** [api.py] *)

Module Api.
Section Api.
Context `{World}.

(** [health_check()] *)
Definition health_check : M dict :=
  let components (endee : str) : pyval :=
    VDict {[ "endee" := VStr endee; "llm" := VStr (lit "ready") ]} in
  try_catch
    (perform ListIndexes ;;;
     ret ({[ "status" := VStr (lit "healthy");
             "version" := VStr (lit "1.0.0");
             "components" := components (lit "connected") ]} : dict))
    (fun e =>
       ret ({[ "status" := VStr (lit "degraded");
               "version" := VStr (lit "1.0.0");
               "components" := components (lit "error: " ++ exn_msg e) ]}
            : dict)).

End Api.
End Api.

(** * Vocabulary of the properties *)

(** What the specification asks of a chunk cut from [text] with a given
    maximum size: it is not empty, it is no longer than the maximum, and
    it is a trimmed slice of the text. *)
Definition chunk_ok (text : str) (chunk_size : Z) (chunk : str) : Prop :=
  chunk <> [] /\ len chunk <= chunk_size /\
  exists start end_, chunk = strip (slice text start end_).

(** The state of the chunking loop of [src/ingest.py] after [n] passes. *)
Definition chunk_state (text : str) (chunk_size overlap : Z) (n : nat)
    : list str * Z :=
  Nat.iter n (Ingest.chunk_step text chunk_size overlap) ([], 0).

(** Did the computation end with a value? *)
Definition is_ok {A} (r : result A) : bool :=
  match r with Ok _ => true | Err _ => false end.

(** The fallback chain in the specification's words: the primary
    provider if its credential is configured, then the secondary if its
    credential is configured, then the local model. *)
Definition fallback_chain (cfg : Config.t) : list provider :=
  (if Config.USE_OPENAI cfg then [OpenAI] else [])
  ++ (if Config.USE_GROQ cfg then [Groq] else [])
  ++ [LocalLLM].

(** The calls to the providers [ps], in turn, with one prompt. *)
Definition llm_events (prompt : str) (ps : list provider) : list event :=
  map (fun p => Ev (LLM p prompt)) ps.

(** What provider [p] answers when called with [prompt] once the
    providers [before] have been called, all after the history [h]. *)
Definition answer_after `{World} (h : list event) (prompt : str)
    (before : list provider) (p : provider) : result str :=
  respond str (h ++ llm_events prompt before) (LLM p prompt).

Definition is_llm (e : event) : bool :=
  match e with
  | Ev c => match c with LLM _ _ => true | _ => false end
  end.

(** Is the event a request to the vector store? *)
Definition is_store (e : event) : bool :=
  match e with
  | Ev c =>
      match c with
      | ListIndexes | CreateIndex _ _ _ _ _ _ | GetIndex _ | Describe _
      | Query _ _ _ _ _ | Upsert _ _ => true
      | _ => false
      end
  end.

(** Whatever the history it starts from, the computation only appends
    events that satisfy [P]. *)
Definition adds_only {A} (P : event -> Prop) (m : M A) : Prop :=
  forall h, exists evs, snd (m h) = h ++ evs /\ Forall P evs.

Definition not_llm (e : event) : Prop := is_llm e = false.

(** The vectors of the similarity queries of a history. *)
Definition query_vectors (h : list event) : list (list float) :=
  omap (fun e =>
          match e with
          | Ev c =>
              match c with
              | Query _ vector _ _ _ => Some vector
              | _ => None
              end
          end) h.

(** The answer [generate_answer] gives when nothing was retrieved. *)
Definition no_context_response : dict :=
  {[ "answer" := VStr Rag.no_context_answer;
     "sources" := VList [];
     "num_chunks" := VInt 0 ]}.

(** A filter on the source of a chunk. *)
Definition source_filter (source : string) : dict :=
  {[ "source" := VStr (lit source) ]}.

Definition any_event (e : event) : Prop := True.

(** The request to create the index [name] with the configured
    parameters. *)
Definition create_index_call (name : str) : call unit :=
  CreateIndex name Config.VECTOR_DIMENSION Config.SPACE_TYPE Config.PRECISION
    Config.HNSW_M Config.HNSW_EF_CON.

(** What [initialize_endee_index] does once the index is known to
    exist: fetch its handle, describe it, return the handle. *)
Definition fetch_index `{World} (name : str) : M handle :=
  index <- perform (GetIndex name) ;;
  perform (Describe index) ;;;
  ret index.

(** The event is not an upsert of more than [n] records. *)
Definition upsert_at_most (n : Z) (e : event) : Prop :=
  match e with
  | Ev c => match c with Upsert _ batch => len batch <= n | _ => True end
  end.

(** The similarity [search_semantic] reads in a context result. *)
Definition similarity_of (ctx : dict) : pyval :=
  get ctx "similarity" (VFloat 0).

(** Is the similarity a number? *)
Definition comparable (ctx : dict) : bool :=
  match similarity_of ctx with
  | VFloat _ | VInt _ | VBool _ => true
  | _ => false
  end.

(** Is the value a number that is at least [threshold]? *)
Definition at_least (threshold : float) (v : pyval) : bool :=
  match v with
  | VFloat f => PrimFloat.leb threshold f
  | VInt z => Z_ge_float z threshold
  | VBool b => Z_ge_float (if b then 1 else 0) threshold
  | _ => false
  end.

Definition above_threshold (threshold : float) (ctx : dict) : bool :=
  at_least threshold (similarity_of ctx).

(** The [score] of an entry of the result list. *)
Definition score_of (hit : pyval) : pyval :=
  match hit with
  | VDict d => get d "score" VNone
  | _ => VNone
  end.

(** The retrieval [search_semantic] starts with. *)
Definition search_retrieval `{World} (query : str) (top_k : Z)
    (filters : option dict) : M (list dict) :=
  match ApiHandlers.has_filters filters with
  | Some d => Retrieve.retrieve_with_filter query d (Some top_k) None None
  | None => Retrieve.retrieve_context query (Some top_k) None None
  end.

(** ** Worlds to run the code in

    A world whose vector store lists [indexes], answers [create] to a
    request to create an index and [hits] to every query, whose LLM
    providers answer [llm], and where every other call succeeds. *)
Definition make_respond (indexes : list str) (create : result unit)
    (hits : list pyval) (llm : provider -> result str)
    (T : Type) (h : list event) (c : call T) : result T :=
  match c in call T return result T with
  | Encode _ => Ok [1%float; 0%float]
  | ListIndexes => Ok indexes
  | CreateIndex _ _ _ _ _ _ => create
  | GetIndex _ => Ok 7%nat
  | Describe _ => Ok (VDict ∅)
  | Query _ _ _ _ _ => Ok hits
  | Upsert _ _ => Ok tt
  | LLM p _ => llm p
  | Uuid4 => Ok (lit "doc")
  | Time => Ok 0%float
  | NowIso => Ok (lit "2024-01-01T00:00:00")
  end.

Definition make_world (indexes : list str) (create : result unit)
    (hits : list pyval) (llm : provider -> result str) : World :=
  {| respond := make_respond indexes create hits llm;
     py_str := fun v => match v with VStr s => s | _ => lit "?" end;
     fmt_2f := fun _ => lit "0.00" |}.

(** A store hit as the vector store returns it. *)
Definition hit (id : string) (similarity : float) (text : string) : pyval :=
  VDict {[ "id" := VStr (lit id);
           "similarity" := VFloat similarity;
           "distance" := VFloat (1 - similarity);
           "meta" := VDict {[ "text" := VStr (lit text);
                              "source" := VStr (lit "notes.txt");
                              "chunk_index" := VInt 0 ]} ]}.

(** The store holds the index and two chunks; every provider answers. *)
Definition demo_world : World :=
  make_world [Config.ENDEE_INDEX_NAME] (Ok tt)
    [hit "doc_0" 0.95 "Vectors are compared by cosine similarity.";
     hit "doc_1" 0.5 "An index is created once."]
    (fun _ => Ok (lit "answer")).

(** The index is created by someone else between the listing and the
    creation. *)
Definition racing_world : World :=
  make_world []
    (Err (Raise "Exception" (lit "Conflict: Index 'rag_documents' already exists")))
    [] (fun _ => Ok (lit "answer")).

(** The store answers every query with one hit that carries no
    similarity. *)
Definition bare_hit_world : World :=
  make_world [Config.ENDEE_INDEX_NAME] (Ok tt)
    [VDict {[ "id" := VStr (lit "doc_0");
              "meta" := VDict {[ "text" := VStr (lit "An index is created once.") ]} ]}]
    (fun _ => Ok (lit "answer")).

(** The store answers every query with two hits, the second of which
    carries no similarity. *)
Definition partial_hit_world : World :=
  make_world [Config.ENDEE_INDEX_NAME] (Ok tt)
    [hit "doc_0" 0.95 "Vectors are compared by cosine similarity.";
     VDict {[ "id" := VStr (lit "doc_1");
              "meta" := VDict {[ "text" := VStr (lit "An index is created once.") ]} ]}]
    (fun _ => Ok (lit "answer")).

(** The class of the exception a computation ended with, if any. *)
Definition raised {A} (r : result A) : option string :=
  match r with
  | Ok _ => None
  | Err e => Some (exn_type e)
  end.

(** The batches of the upserts of a history. *)
Definition upserts (h : list event) : list (list pyval) :=
  omap (fun e =>
          match e with
          | Ev c => match c with Upsert _ batch => Some batch | _ => None end
          end) h.

Definition is_create (e : event) : bool :=
  match e with
  | Ev c => match c with CreateIndex _ _ _ _ _ _ => true | _ => false end
  end.

(** The [meta] of a store hit as [format_results] reads it: the empty
    dict when the key is absent, nothing when the value is no dict. *)
Definition meta_of (d : dict) : option dict :=
  match d !! "meta" with
  | None => Some ∅
  | Some (VDict m) => Some m
  | Some _ => None
  end.

(** A store hit [format_results] can read. *)
Definition readable_hit (r : pyval) : Prop :=
  exists d m, r = VDict d /\ meta_of d = Some m.

(** The keys of a formatted result. *)
Definition formatted_keys : gset string :=
  {[ "id"; "similarity"; "distance"; "text"; "source"; "chunk_index" ]}.

(** What [format_results] makes of one readable hit. *)
Definition formats_to (r : pyval) (f : dict) : Prop :=
  exists d m,
    r = VDict d /\ meta_of d = Some m /\
    dom f = formatted_keys /\
    f !! "id" = Some (get d "id" VNone) /\
    f !! "similarity" = Some (get d "similarity" VNone) /\
    f !! "distance" = Some (get d "distance" VNone) /\
    f !! "text" = Some (get m "text" (VStr [])) /\
    f !! "source" = Some (get m "source" (VStr [])) /\
    f !! "chunk_index" = Some (get m "chunk_index" (VInt 0)).

(** The similarity a store hit carries, if it carries one. *)
Definition similarity_in (r : pyval) : option pyval :=
  match r with
  | VDict d => d !! "similarity"
  | _ => None
  end.

Definition is_number (v : pyval) : bool :=
  match v with
  | VFloat _ | VInt _ | VBool _ => true
  | _ => false
  end.

(** The similarity of the hit is a number wherever the hit has one. *)
Definition number_if_present (r : pyval) : Prop :=
  forall s, similarity_in r = Some s -> is_number s = true.

Definition has_key (d : dict) (key : string) : bool :=
  match d !! key with Some _ => true | None => false end.

(** Does the chunk carry what [store_embeddings] reads in it? *)
Definition storable_chunk (chunk : pyval) : bool :=
  match chunk with
  | VDict d =>
      has_key d "id" && has_key d "embedding" && has_key d "text" &&
      match d !! "metadata" with
      | Some (VDict m) =>
          has_key m "source" && has_key m "chunk_index"
          && has_key m "total_chunks"
      | _ => false
      end
  | _ => false
  end.

Definition not_upsert (e : event) : Prop :=
  match e with
  | Ev c => match c with Upsert _ _ => False | _ => True end
  end.

(** Is the [text] of the context chunk a string? *)
Definition has_text (chunk : dict) : bool :=
  match chunk !! "text" with
  | Some (VStr _) => true
  | _ => false
  end.

(** The keys of an entry of the [sources] of [generate_answer]. *)
Definition source_keys : gset string :=
  {[ "source"; "chunk_index"; "similarity"; "excerpt" ]}.

(** An entry of [sources] as [generate_answer] builds it. *)
Definition is_source_entry (entry : pyval) : Prop :=
  exists d, entry = VDict d /\ dom d = source_keys.

(** An entry of the [sources] of [query_rag] without text and tags. *)
Definition bare_rag_source (entry : pyval) : Prop :=
  exists d,
    entry = VDict d /\
    d !! "text" = Some (VStr []) /\
    d !! "tags" = Some (VList []).

(** The store holds the index and no chunk. *)
Definition empty_store_world : World :=
  make_world [Config.ENDEE_INDEX_NAME] (Ok tt) [] (fun _ => Ok (lit "answer")).

(** No credential is configured. *)
Definition local_only : Config.t :=
  {| Config.OPENAI_API_KEY := []; Config.GROQ_API_KEY := [] |}.

(** The [text] of an entry of a result list, when it is a string. *)
Definition get_text (entry : pyval) : option str :=
  match entry with
  | VDict d => match d !! "text" with Some (VStr s) => Some s | _ => None end
  | _ => None
  end.

(** The event is neither a call to an LLM provider nor an upsert. *)
Definition search_event (e : event) : bool :=
  match e with
  | Ev c => match c with LLM _ _ | Upsert _ _ => false | _ => true end
  end.

(** The sentences the chunker of the API path works on. *)
Definition sentences_of (text : str) : list str :=
  split (replace_char (ascii_of_nat 10) " "%char text) (lit ". ").

(** What the loop over the sentences keeps true: the chunks cut so far
    are within the bound, and so is the chunk being filled, which ends
    with a space. *)
Definition within_bound (bound : Z) (st : list str * str) : Prop :=
  Forall (fun c => len c <= bound) (fst st) /\
  (snd st = [] \/
   exists body, snd st = body ++ [" "%char] /\ len body <= bound).

(** The text holds no white space. *)
Definition no_space (text : str) : Prop :=
  Forall (fun c => is_space c = false) text.

(** The consecutive batches [batch_upsert] cuts a list into, for a
    positive batch size. *)
Definition batches_of {A} (vectors : list A) (batch_size : Z) : list (list A) :=
  map (fun i => slice vectors i (i + batch_size))
    (map (fun k => 0 + Z.of_nat k * batch_size)
       (seq 0 (Z.to_nat ((len vectors + batch_size - 1) / batch_size)))).

(** The record stored for a chunk carries its id and its embedding. *)
Definition record_of (chunk record : pyval) : Prop :=
  exists d fields,
    chunk = VDict d /\ record = VDict fields /\
    fields !! "id" = d !! "id" /\
    fields !! "vector" = d !! "embedding".

(** * Properties *)

(** ** Python strings and slices *)

Lemma len_nonneg {A} (s : list A) : 0 <= len s.
Proof. unfold len. lia. Qed.

Lemma len_app {A} (s t : list A) : len (s ++ t) = len s + len t.
Proof. unfold len. rewrite length_app. lia. Qed.

Lemma length_lstrip_le (s : str) : (length (lstrip s) <= length s)%nat.
Proof.
  induction s as [|c s IH]; simpl; [lia|].
  destruct (is_space c); simpl; lia.
Qed.

Lemma len_strip_le (s : str) : len (strip s) <= len s.
Proof.
  unfold strip, rstrip, len.
  rewrite length_rev.
  pose proof (length_lstrip_le (rev (lstrip s))) as H1.
  rewrite length_rev in H1.
  pose proof (length_lstrip_le s). lia.
Qed.

Lemma norm_idx_range (n i : Z) : 0 <= n -> 0 <= norm_idx n i <= n.
Proof. unfold norm_idx. destruct (Z.ltb_spec i 0); lia. Qed.

Lemma norm_idx_id (n i : Z) : 0 <= i <= n -> norm_idx n i = i.
Proof. unfold norm_idx. destruct (Z.ltb_spec i 0); lia. Qed.

Lemma norm_idx_ge (n i : Z) : 0 <= n <= i -> norm_idx n i = n.
Proof. unfold norm_idx. destruct (Z.ltb_spec i 0); lia. Qed.

(** A window of non-negative width never widens when its two bounds
    are read as slice bounds. *)
Lemma norm_idx_window (n i j : Z) :
  0 <= n -> i <= j -> norm_idx n j - norm_idx n i <= j - i.
Proof.
  unfold norm_idx.
  destruct (Z.ltb_spec i 0), (Z.ltb_spec j 0); lia.
Qed.

Lemma len_slice {A} (s : list A) (i j : Z) :
  len (slice s i j) = Z.max 0 (norm_idx (len s) j - norm_idx (len s) i).
Proof.
  unfold slice.
  pose proof (norm_idx_range (len s) i (len_nonneg s)).
  pose proof (norm_idx_range (len s) j (len_nonneg s)).
  unfold len in *. rewrite length_firstn, length_skipn. lia.
Qed.

Lemma slice_whole {A} (s : list A) (j : Z) : len s <= j -> slice s 0 j = s.
Proof.
  intros Hj. unfold slice.
  pose proof (len_nonneg s).
  rewrite (norm_idx_id _ 0), (norm_idx_ge _ j) by lia.
  simpl. apply firstn_all2. unfold len. lia.
Qed.

Lemma rfind_from_range (sub s : str) (lo k : nat) :
  rfind_from sub s lo k = -1 \/
  Z.of_nat lo <= rfind_from sub s lo k < Z.of_nat lo + Z.of_nat k.
Proof.
  induction k as [|k IH]; simpl; [now left|].
  destruct (occurs_at sub s (lo + k)); [right; lia|].
  destruct IH as [->|IH]; [now left | right; lia].
Qed.

(** What [rfind] returns is [-1] or the start of a window that lies
    inside the searched slice. *)
Lemma rfind_range (s sub : str) (i j : Z) :
  rfind s sub i j = -1 \/
  (norm_idx (len s) i <= rfind s sub i j /\
   rfind s sub i j + len sub <= norm_idx (len s) j).
Proof.
  unfold rfind.
  pose proof (norm_idx_range (len s) i (len_nonneg s)).
  destruct (Z.ltb_spec (norm_idx (len s) j - len sub) (norm_idx (len s) i));
    [now left|].
  destruct (rfind_from_range sub s (Z.to_nat (norm_idx (len s) i))
              (Z.to_nat (norm_idx (len s) j - len sub - norm_idx (len s) i + 1)))
    as [->|Hr]; [now left | right; lia].
Qed.

(** ** The chunker of [src/ingest.py] *)

Lemma find_boundary_range (text : str) (lo hi : Z) (bs : list str) (e : Z) :
  Ingest.find_boundary text lo hi bs = Some e ->
  0 <= e <= norm_idx (len text) hi.
Proof.
  induction bs as [|b bs IH]; simpl; [discriminate|].
  destruct (Z.eqb_spec (rfind text b lo hi) (-1)) as [|Hne]; [exact IH|].
  intros [= <-].
  pose proof (norm_idx_range (len text) lo (len_nonneg text)).
  pose proof (len_nonneg b).
  destruct (rfind_range text b lo hi) as [|[? ?]]; [contradiction|lia].
Qed.

(** Boundary adjustment only moves [end] backward, and never before 0. *)
Lemma adjust_end_backward (text : str) (chunk_size start : Z) :
  let e := Ingest.adjust_end text chunk_size start in
  e = start + chunk_size \/
  (0 <= e <= norm_idx (len text) (start + chunk_size)).
Proof.
  unfold Ingest.adjust_end.
  destruct (start + chunk_size <? len text); [|now left].
  destruct (Ingest.find_boundary _ _ _ _) as [e|] eqn:Hb.
  - right. eapply find_boundary_range; eauto.
  - set (sp := rfind text (lit " ") start (start + chunk_size)).
    destruct (Z.eqb_spec sp (-1)) as [|Hne]; simpl; [now left|].
    destruct (Z.ltb_spec start sp); [|now left].
    right.
    pose proof (norm_idx_range (len text) start (len_nonneg text)).
    destruct (rfind_range text (lit " ") start (start + chunk_size))
      as [|[? ?]]; [contradiction|].
    fold sp in H1, H2. change (len (lit " ")) with 1 in H2. lia.
Qed.

(** The slice cut by one pass is never longer than the chunk size. *)
Lemma len_slice_adjust_end (text : str) (chunk_size start : Z) :
  0 <= chunk_size ->
  len (slice text start (Ingest.adjust_end text chunk_size start)) <= chunk_size.
Proof.
  intros Hcs. rewrite len_slice.
  pose proof (len_nonneg text) as Hn.
  pose proof (norm_idx_window (len text) start (start + chunk_size) Hn).
  destruct (adjust_end_backward text chunk_size start) as [->|[? ?]]; [lia|].
  rewrite (norm_idx_id _ (Ingest.adjust_end _ _ _)); [lia|].
  pose proof (norm_idx_range (len text) (start + chunk_size) Hn). lia.
Qed.

Lemma chunk_loop_eq (fuel : nat) (text : str) (chunk_size overlap : Z)
    (st : list str * Z) :
  Ingest.chunk_loop fuel text chunk_size overlap st =
  if snd st <? len text then
    match fuel with
    | O => None
    | S fuel' =>
        Ingest.chunk_loop fuel' text chunk_size overlap
          (Ingest.chunk_step text chunk_size overlap st)
    end
  else Some (fst st).
Proof. destruct fuel; reflexivity. Qed.

Lemma chunk_step_ok (text : str) (chunk_size overlap : Z) (st : list str * Z) :
  0 <= chunk_size ->
  Forall (chunk_ok text chunk_size) (fst st) ->
  Forall (chunk_ok text chunk_size)
    (fst (Ingest.chunk_step text chunk_size overlap st)).
Proof.
  intros Hcs Hst. destruct st as [chunks start]. unfold Ingest.chunk_step.
  set (e := Ingest.adjust_end text chunk_size start).
  destruct (strip (slice text start e)) as [|c chunk] eqn:Hchunk; simpl.
  - exact Hst.
  - apply Forall_app. split; [exact Hst|].
    constructor; [|constructor].
    rewrite <- Hchunk. repeat split.
    + rewrite Hchunk. discriminate.
    + pose proof (len_strip_le (slice text start e)).
      pose proof (len_slice_adjust_end text chunk_size start Hcs).
      fold e in H0. lia.
    + now exists start, e.
Qed.

Lemma chunk_state_ok (text : str) (chunk_size overlap : Z) (n : nat) :
  0 <= chunk_size ->
  Forall (chunk_ok text chunk_size)
    (fst (chunk_state text chunk_size overlap n)).
Proof.
  intros Hcs. induction n as [|n IH]; [constructor|].
  unfold chunk_state in *. simpl. now apply chunk_step_ok.
Qed.

Lemma chunk_loop_ok (fuel : nat) (text : str) (chunk_size overlap : Z)
    (st : list str * Z) (chunks : list str) :
  0 <= chunk_size ->
  Forall (chunk_ok text chunk_size) (fst st) ->
  Ingest.chunk_loop fuel text chunk_size overlap st = Some chunks ->
  Forall (chunk_ok text chunk_size) chunks.
Proof.
  intros Hcs. revert st.
  induction fuel as [|fuel IH]; intros st Hst; rewrite chunk_loop_eq;
    destruct (snd st <? len text); try discriminate;
    try (intros [= <-]; exact Hst).
  apply IH. now apply chunk_step_ok.
Qed.

(** C5. Whatever the text and the overlap, and for every maximum chunk
    size (a number of characters, so not negative), every chunk that
    [chunk_text] of [src/ingest.py] holds at any point of its loop, hence
    every chunk it returns, the last one included, is a non-empty trimmed
    slice of the text and is at most [chunk_size] characters long. *)
Theorem chunk_text_chunk_size_invariant (text : str) (chunk_size overlap : Z) :
  0 <= chunk_size ->
  (forall n,
     Forall (chunk_ok text chunk_size)
       (fst (chunk_state text chunk_size overlap n))) /\
  (forall fuel chunks,
     Ingest.chunk_text fuel text chunk_size overlap = Some chunks ->
     Forall (chunk_ok text chunk_size) chunks).
Proof.
  intros Hcs. split.
  - intros n. now apply chunk_state_ok.
  - intros fuel chunks. unfold Ingest.chunk_text.
    destruct text as [|c text].
    + intros [= <-]. constructor.
    + apply chunk_loop_ok; [exact Hcs | constructor].
Qed.

Lemma chunk_text_chunk_size_invariant_witness :
  0 <= 20 /\
  Forall (chunk_ok (lit "Hello world. This is a test! And more text here") 20)
    [lit "Hello world."; lit "d. This is a test!"; lit "t! And more text";
     lit "ext here"].
Proof.
  split; [lia|].
  apply (proj2 (chunk_text_chunk_size_invariant
                  (lit "Hello world. This is a test! And more text here")
                  20 3 ltac:(lia)) 10%nat).
  vm_compute. reflexivity.
Defined.

(** *** Texts shorter than one chunk *)

Lemma adjust_end_last (text : str) (chunk_size start : Z) :
  len text <= start + chunk_size ->
  Ingest.adjust_end text chunk_size start = start + chunk_size.
Proof.
  intros Hlast. unfold Ingest.adjust_end.
  destruct (Z.ltb_spec (start + chunk_size) (len text)); [lia | reflexivity].
Qed.

(** The first pass on a text shorter than one chunk. *)
Lemma chunk_step_short_first (text : str) (chunk_size overlap : Z) :
  strip text <> [] ->
  len text < chunk_size ->
  Ingest.chunk_step text chunk_size overlap ([], 0) =
  ([strip text],
   if chunk_size - overlap <=? len (slice_to (strip text) overlap)
   then chunk_size else chunk_size - overlap).
Proof.
  intros Hne Hlt. unfold Ingest.chunk_step.
  rewrite adjust_end_last by lia.
  rewrite Z.add_0_l, slice_whole by lia.
  destruct (strip text) as [|c s]; [contradiction | reflexivity].
Qed.

(** Later passes on such a text: [end] stays past the text, the chunks
    already cut stay, and [start] moves forward. *)
Lemma chunk_step_short_next (text : str) (chunk_size overlap : Z)
    (c : str) (rest : list str) (start : Z) :
  len text < chunk_size -> overlap < chunk_size -> 0 <= start ->
  exists rest' start',
    Ingest.chunk_step text chunk_size overlap (c :: rest, start) =
    (c :: rest', start') /\ start < start'.
Proof.
  intros Hlt Hov Hstart. unfold Ingest.chunk_step.
  rewrite adjust_end_last by lia.
  set (chunk := strip (slice text start (start + chunk_size))).
  set (chunks := match chunk with
                 | [] => c :: rest
                 | _ => (c :: rest) ++ [chunk]
                 end).
  assert (exists rest', chunks = c :: rest') as [rest' Hchunks].
  { subst chunks. destruct chunk; simpl; eauto. }
  rewrite Hchunks. pose proof (len_nonneg text).
  match goal with
  | |- context [if ?g then _ else _] => destruct g
  end; eexists _, _; (split; [reflexivity | lia]).
Qed.

Lemma chunk_loop_short (fuel : nat) (text : str) (chunk_size overlap : Z)
    (c : str) (rest : list str) (start : Z) :
  len text < chunk_size -> overlap < chunk_size -> 0 <= start ->
  (Z.to_nat (len text - start) < fuel)%nat ->
  exists rest',
    Ingest.chunk_loop fuel text chunk_size overlap (c :: rest, start) =
    Some (c :: rest').
Proof.
  intros Hlt Hov. revert rest start.
  induction fuel as [|fuel IH]; intros rest start Hstart Hfuel; [lia|].
  rewrite chunk_loop_eq. simpl snd. simpl fst.
  destruct (Z.ltb_spec start (len text)); [|eauto].
  destruct (chunk_step_short_next text chunk_size overlap c rest start)
    as (rest' & start' & -> & Hprog); try assumption.
  apply IH; lia.
Qed.

Lemma chunk_text_nonempty (fuel : nat) (text : str) (chunk_size overlap : Z) :
  text <> [] ->
  Ingest.chunk_text fuel text chunk_size overlap =
  Ingest.chunk_loop fuel text chunk_size overlap ([], 0).
Proof. destruct text; [contradiction | reflexivity]. Qed.

(** C3, as amended. For every text that holds a character other than
    white space and is strictly shorter than the chunk size,
    [chunk_text] of [src/ingest.py] returns, and the first chunk it
    returns is the trimmed text; when the overlap is at most the room
    left in the window ([overlap <= chunk_size - len(text)]) that chunk
    is the only one. *)
Theorem chunk_text_short_text (fuel : nat) (text : str)
    (chunk_size overlap : Z) :
  strip text <> [] ->
  len text < chunk_size ->
  (length text < fuel)%nat ->
  exists rest,
    Ingest.chunk_text fuel text chunk_size overlap = Some (strip text :: rest)
    /\ (overlap <= chunk_size - len text -> rest = []).
Proof.
  intros Hne Hlt Hfuel.
  assert (text <> []) as Htext by (intros ->; now apply Hne).
  rewrite chunk_text_nonempty by assumption.
  destruct fuel as [|fuel]; [lia|].
  assert (0 < len text) as Hpos.
  { unfold len. destruct text; [contradiction | simpl; lia]. }
  rewrite chunk_loop_eq. simpl snd.
  destruct (Z.ltb_spec 0 (len text)); [|lia].
  rewrite chunk_step_short_first by assumption.
  pose proof (len_nonneg (slice_to (strip text) overlap)) as Hpre.
  destruct (Z.leb_spec (chunk_size - overlap)
              (len (slice_to (strip text) overlap))) as [Hguard|Hguard].
  - (* the guard sends [start] to [end] *)
    exists []. split; [|reflexivity].
    rewrite chunk_loop_eq. simpl snd.
    destruct (Z.ltb_spec chunk_size (len text)); [lia | reflexivity].
  - destruct (Z.ltb_spec (chunk_size - overlap) (len text)) as [Hin|Hout].
    + destruct (chunk_loop_short fuel text chunk_size overlap (strip text) []
                  (chunk_size - overlap)) as [rest Hrest]; try lia.
      { unfold len in *. lia. }
      exists rest. split; [exact Hrest | lia].
    + exists []. split; [|reflexivity].
      rewrite chunk_loop_eq. simpl snd.
      destruct (Z.ltb_spec (chunk_size - overlap) (len text));
        [lia | reflexivity].
Qed.

Lemma chunk_text_short_text_witness :
  strip (lit "  hello world ") <> [] /\
  len (lit "  hello world ") < 512 /\
  (length (lit "  hello world ") < 15)%nat /\
  exists rest,
    Ingest.chunk_text 15 (lit "  hello world ") 512 50
    = Some (strip (lit "  hello world ") :: rest)
    /\ (50 <= 512 - len (lit "  hello world ") -> rest = []).
Proof.
  assert (H1 : strip (lit "  hello world ") <> []) by (vm_compute; discriminate).
  assert (H2 : len (lit "  hello world ") < 512) by (vm_compute; reflexivity).
  assert (H3 : (length (lit "  hello world ") < 15)%nat) by (vm_compute; lia).
  repeat split; try assumption.
  exact (chunk_text_short_text 15 (lit "  hello world ") 512 50 H1 H2 H3).
Defined.

(** C3, as the specification states it, fails on a text of white space
    only: the loop drops the empty chunk, and nothing is returned. *)
Lemma chunk_text_blank_text_counterexample :
  lit " " <> [] /\ len (lit " ") < 10 /\
  Ingest.chunk_text 1 (lit " ") 10 0 = Some [] /\
  forall fuel, Ingest.chunk_text fuel (lit " ") 10 0 <> Some [strip (lit " ")].
Proof.
  assert (Hone : Ingest.chunk_text 1 (lit " ") 10 0 = Some [])
    by (vm_compute; reflexivity).
  split; [discriminate|]. split; [reflexivity|]. split; [exact Hone|].
  intros [|fuel].
  - vm_compute. discriminate.
  - rewrite chunk_text_nonempty by discriminate.
    rewrite chunk_loop_eq.
    change (snd ([], 0) <? len (lit " ")) with true. cbv iota.
    rewrite chunk_loop_eq.
    assert (Hstep : Ingest.chunk_step (lit " ") 10 0 ([], 0) = ([], 10))
      by (vm_compute; reflexivity).
    rewrite Hstep.
    change (snd ([], 10) <? len (lit " ")) with false. cbv iota.
    discriminate.
Qed.

(** The same loop goes once more round when the overlap is larger than
    the room left in the window: with the configured sizes, a text of
    500 characters comes back as two chunks, the second one the tail of
    the first. *)
Example chunk_text_short_text_tail :
  Ingest.chunk_text 2 (lit "abcdefgh") 10 4
  = Some [lit "abcdefgh"; lit "gh"] /\
  Ingest.chunk_text 3 (repeat "a"%char 500) Config.CHUNK_SIZE Config.CHUNK_OVERLAP
  = Some [repeat "a"%char 500; repeat "a"%char 38].
Proof. split; vm_compute; reflexivity. Qed.

(** ** The monad of effects *)

Lemma bind_ok_inv {A B} (m : M A) (k : A -> M B) (h h' : list event) (b : B) :
  bind m k h = (Ok b, h') ->
  exists a h1, m h = (Ok a, h1) /\ k a h1 = (Ok b, h').
Proof.
  unfold bind. destruct (m h) as [[a|e] h1]; [eauto | discriminate].
Qed.

Lemma ret_ok_inv {A} (a b : A) (h h' : list event) :
  ret a h = (Ok b, h') -> a = b /\ h = h'.
Proof. unfold ret. now intros [= -> ->]. Qed.

(** ** The sentence chunker of [src/api_handlers.py] *)

Lemma app_singleton_not_nil {A} (l : list A) (x : A) : l ++ [x] <> [].
Proof. destruct l; discriminate. Qed.

Lemma api_chunk_text_not_nil (text : str) (max_chunk_size : Z) :
  ApiHandlers.chunk_text text max_chunk_size <> [].
Proof.
  unfold ApiHandlers.chunk_text.
  destruct (fold_left _ _ _) as [chunks current_chunk].
  destruct current_chunk as [|c current_chunk].
  - destruct chunks; discriminate.
  - destruct (chunks ++ [strip (c :: current_chunk)]) eqn:E; [|discriminate].
    now apply app_singleton_not_nil in E.
Qed.

Lemma lstrip_blank (s : str) : forallb is_space s = true -> lstrip s = [].
Proof.
  induction s as [|c s IH]; simpl; [reflexivity|].
  intros [-> Hs]%andb_prop. auto.
Qed.

Lemma strip_blank (s : str) : forallb is_space s = true -> strip s = [].
Proof. intros Hs. unfold strip. now rewrite lstrip_blank. Qed.

Lemma replace_newline_blank (s : str) :
  forallb is_space s = true ->
  forallb is_space (replace_char (ascii_of_nat 10) " "%char s) = true.
Proof.
  induction s as [|c s IH]; simpl; [reflexivity|].
  intros [Hc Hs]%andb_prop. rewrite IH by assumption.
  destruct (Ascii.eqb c _); [reflexivity | now rewrite Hc].
Qed.

Lemma is_space_not_dot (c : ascii) :
  is_space c = true -> Ascii.eqb "."%char c = false.
Proof.
  intros Hc. destruct (Ascii.eqb_spec "."%char c) as [<-|]; [|reflexivity].
  discriminate Hc.
Qed.

(** A text of white space holds no ". " to split at. *)
Lemma split_blank (s cur : str) :
  forallb is_space s = true ->
  split_go (lit ". ") s cur O = [rev cur ++ s].
Proof.
  revert cur. induction s as [|c s IH]; intros cur.
  - intros _. cbn [split_go]. now rewrite app_nil_r.
  - cbn [forallb]. intros [Hc Hs]%andb_prop.
    cbn [split_go].
    replace (starts_with (lit ". ") (c :: s)) with false.
    + rewrite IH by assumption. cbn [rev]. now rewrite <- app_assoc.
    + change (lit ". ") with ["."%char; " "%char]. cbn [starts_with].
      now rewrite (is_space_not_dot c Hc).
Qed.

Lemma api_chunk_text_blank (text : str) (max_chunk_size : Z) :
  forallb is_space text = true ->
  ApiHandlers.chunk_text text max_chunk_size = [text].
Proof.
  intros Hblank. unfold ApiHandlers.chunk_text, split.
  rewrite split_blank by now apply replace_newline_blank.
  simpl. unfold ApiHandlers.add_sentence.
  rewrite strip_blank by now apply replace_newline_blank.
  reflexivity.
Qed.

(** C4, as the specification states it, fails: with a limit of 5 the
    sentences [A] and [B] go into one chunk. *)
Lemma api_chunk_text_scenario_counterexample :
  ApiHandlers.chunk_text (lit "A. B. C.") 5 <> [lit "A."; lit "B."; lit "C."].
Proof. vm_compute. discriminate. Qed.

(** C4, as amended. The sentence chunker of the API path, applied to
    ["A. B. C."] with [max_chunk_size = 5], produces exactly two chunks:
    ["A. B."], in which the sentences [A] and [B] have accumulated
    (3 + 1 < 5), and a chunk that opens with the sentence ["C."]. *)
Theorem api_chunk_text_scenario :
  exists last_chunk,
    ApiHandlers.chunk_text (lit "A. B. C.") 5 = [lit "A. B."; last_chunk]
    /\ starts_with (lit "C.") last_chunk = true.
Proof. eexists. split; vm_compute; reflexivity. Qed.

(** C10. The sentence chunker of the API path never returns an empty
    list: it returns at least one chunk for every text, the raw input
    itself when the text is empty or white space only, so whenever
    [ingest_document] returns, the [chunk_count] it reports is at
    least 1. *)
Theorem api_chunk_text_never_empty :
  (forall text max_chunk_size,
     ApiHandlers.chunk_text text max_chunk_size <> [] /\
     1 <= len (ApiHandlers.chunk_text text max_chunk_size)) /\
  (forall text max_chunk_size,
     forallb is_space text = true ->
     ApiHandlers.chunk_text text max_chunk_size = [text]) /\
  (forall (W : World) text source tags metadata h response h',
     ApiHandlers.ingest_document text source tags metadata h
     = (Ok response, h') ->
     exists n, response !! "chunk_count" = Some (VInt n) /\ 1 <= n).
Proof.
  split; [|split].
  - intros text max_chunk_size.
    pose proof (api_chunk_text_not_nil text max_chunk_size) as Hne.
    split; [exact Hne|].
    destruct (ApiHandlers.chunk_text text max_chunk_size);
      [contradiction | unfold len; simpl; lia].
  - exact api_chunk_text_blank.
  - intros W text source tags metadata h response h' Hrun.
    unfold ApiHandlers.ingest_document in Hrun.
    repeat (apply bind_ok_inv in Hrun as (? & ? & _ & Hrun)).
    apply ret_ok_inv in Hrun as [<- _].
    eexists. split; [reflexivity|].
    pose proof (api_chunk_text_not_nil text Config.CHUNK_SIZE) as Hne.
    destruct (ApiHandlers.chunk_text text Config.CHUNK_SIZE);
      [contradiction | unfold len; simpl; lia].
Qed.

Lemma api_chunk_text_never_empty_witness :
  forallb is_space (lit "  ") = true /\
  ApiHandlers.chunk_text (lit "  ") 512 = [lit "  "] /\
  exists response h',
    @ApiHandlers.ingest_document demo_world (lit "") None None None []
    = (Ok response, h') /\
    exists n, response !! "chunk_count" = Some (VInt n) /\ 1 <= n.
Proof.
  assert (Hblank : forallb is_space (lit "  ") = true) by reflexivity.
  split; [exact Hblank|].
  split.
  - exact (proj1 (proj2 api_chunk_text_never_empty) (lit "  ") 512 Hblank).
  - assert (Hok : is_ok (fst (@ApiHandlers.ingest_document demo_world
                                  (lit "") None None None [])) = true)
      by (vm_compute; reflexivity).
    revert Hok.
    destruct (@ApiHandlers.ingest_document demo_world (lit "") None None None [])
      as [[response|e] h'] eqn:Hrun; [intros _ | discriminate].
    exists response, h'. split; [reflexivity|].
    exact (proj2 (proj2 api_chunk_text_never_empty) demo_world
             (lit "") None None None [] response h' Hrun).
Defined.

(** ** The fallback chain of [src/rag.py] *)

(** Closes one case of the chain: the providers called are [before] and
    then [last_p]. *)
Ltac chain_tried before last_p :=
  exists before, last_p; unfold answer_after;
  cbn [app llm_events map fst snd];
  rewrite ?app_nil_r, <- ?app_assoc; cbn [app];
  repeat match goal with |- _ /\ _ => split end;
  [ reflexivity
  | eexists; reflexivity
  | apply (bool_decide_unpack _); vm_compute; exact I
  | first [reflexivity | intros Hin; exfalso; revert Hin;
           apply (bool_decide_unpack _); vm_compute; exact I]
  | first [reflexivity | intros Hin; exfalso; revert Hin;
           apply (bool_decide_unpack _); vm_compute; exact I]
  | intros [|[|[|i]]] p; cbn; intros [= <-];
    rewrite ?app_nil_r; cbn; eauto
  | first [reflexivity | congruence]
  | intros Hne; first [now eauto | congruence]
  | split; intros Heq; first [reflexivity | discriminate | congruence] ].

Section FallbackChain.
Context `{World}.
Variable cfg : Config.t.
Variable prompt : str.
Variable h : list event.

Lemma call_local_llm_run (h0 : list event) :
  Rag.call_local_llm prompt h0 =
  (respond str h0 (LLM LocalLLM prompt), h0 ++ [Ev (LLM LocalLLM prompt)]).
Proof.
  unfold Rag.call_local_llm, try_catch, perform, raise.
  now destruct (respond str h0 (LLM LocalLLM prompt)).
Qed.

Lemma call_groq_llm_run (h0 : list event) :
  Rag.call_groq_llm prompt h0 =
  (respond str h0 (LLM Groq prompt), h0 ++ [Ev (LLM Groq prompt)]).
Proof.
  unfold Rag.call_groq_llm, try_catch, perform, raise.
  now destruct (respond str h0 (LLM Groq prompt)).
Qed.

Lemma call_openai_llm_run (h0 : list event) :
  Rag.call_openai_llm prompt h0 =
  (respond str h0 (LLM OpenAI prompt), h0 ++ [Ev (LLM OpenAI prompt)]).
Proof.
  unfold Rag.call_openai_llm, try_catch, perform, raise.
  now destruct (respond str h0 (LLM OpenAI prompt)).
Qed.

(** C1. Every call of [call_llm] follows the fixed chain OpenAI, Groq,
    local model. The providers it calls, [before] and then [last_p],
    are the first providers of the chain of the configured ones, each
    called once; a provider is called only if its credential is
    configured; every provider of [before] failed, and that sent
    control to the next one; the result of the call, a failure
    included, is what [last_p] answered; a provider other than the
    local one ends the call only by answering; and the local model is
    called exactly when the whole chain has been gone through. *)
Theorem call_llm_fallback_chain :
  exists before last_p,
    let tried := before ++ [last_p] in
    snd (Rag.call_llm cfg prompt h) = h ++ llm_events prompt tried
    /\ tried `prefix_of` fallback_chain cfg
    /\ NoDup tried
    /\ (OpenAI ∈ tried -> Config.USE_OPENAI cfg = true)
    /\ (Groq ∈ tried -> Config.USE_GROQ cfg = true)
    /\ (forall i p, before !! i = Some p ->
          exists e, answer_after h prompt (take i before) p = Err e)
    /\ fst (Rag.call_llm cfg prompt h) = answer_after h prompt before last_p
    /\ (last_p <> LocalLLM ->
          exists a, fst (Rag.call_llm cfg prompt h) = Ok a)
    /\ (last_p = LocalLLM <-> tried = fallback_chain cfg).
Proof.
  unfold Rag.call_llm, fallback_chain, try_catch.
  destruct (Config.USE_OPENAI cfg) eqn:HO;
    destruct (Config.USE_GROQ cfg) eqn:HG.
  - (* both credentials configured *)
    rewrite call_openai_llm_run.
    destruct (respond str h (LLM OpenAI prompt)) as [a|e] eqn:EO.
    { chain_tried (@nil provider) OpenAI. }
    rewrite call_groq_llm_run.
    destruct (respond str (h ++ [Ev (LLM OpenAI prompt)]) (LLM Groq prompt))
      as [a|e'] eqn:EG.
    { chain_tried [OpenAI] Groq. }
    rewrite call_local_llm_run.
    chain_tried [OpenAI; Groq] LocalLLM.
  - (* only the primary one *)
    rewrite call_openai_llm_run.
    destruct (respond str h (LLM OpenAI prompt)) as [a|e] eqn:EO.
    { chain_tried (@nil provider) OpenAI. }
    rewrite call_local_llm_run.
    chain_tried [OpenAI] LocalLLM.
  - (* only the secondary one *)
    rewrite call_groq_llm_run.
    destruct (respond str h (LLM Groq prompt)) as [a|e] eqn:EG.
    { chain_tried (@nil provider) Groq. }
    rewrite call_local_llm_run.
    chain_tried [Groq] LocalLLM.
  - (* none *)
    rewrite call_local_llm_run.
    chain_tried (@nil provider) LocalLLM.
Qed.

End FallbackChain.

(** ** Which calls a computation can make *)

Section AddsOnly.
Context `{World}.
Context {P : event -> Prop}.

Lemma adds_only_ret {A} (a : A) : adds_only P (ret a).
Proof. intros h. exists []. now rewrite app_nil_r. Qed.

Lemma adds_only_raise {A} (e : exn) : adds_only P (@raise A e).
Proof. intros h. exists []. now rewrite app_nil_r. Qed.

Lemma adds_only_lift {A} (r : result A) : adds_only P (lift r).
Proof. intros h. exists []. now rewrite app_nil_r. Qed.

Lemma adds_only_perform {T} (c : call T) : P (Ev c) -> adds_only P (perform c).
Proof. intros Hc h. exists [Ev c]. split; [reflexivity | now constructor]. Qed.

Lemma adds_only_bind {A B} (m : M A) (k : A -> M B) :
  adds_only P m -> (forall a, adds_only P (k a)) -> adds_only P (bind m k).
Proof.
  intros Hm Hk h. unfold bind.
  destruct (Hm h) as (evs & Hh & Hevs).
  destruct (m h) as [[a|e] h1]; simpl in Hh; subst h1.
  - destruct (Hk a (h ++ evs)) as (evs' & -> & Hevs').
    exists (evs ++ evs'). rewrite app_assoc. split; [reflexivity|].
    now apply Forall_app.
  - now exists evs.
Qed.

Lemma adds_only_try_catch {A} (m : M A) (handler : exn -> M A) :
  adds_only P m -> (forall e, adds_only P (handler e)) ->
  adds_only P (try_catch m handler).
Proof.
  intros Hm Hk h. unfold try_catch.
  destruct (Hm h) as (evs & Hh & Hevs).
  destruct (m h) as [[a|e] h1]; simpl in Hh; subst h1.
  - now exists evs.
  - destruct (Hk e (h ++ evs)) as (evs' & -> & Hevs').
    exists (evs ++ evs'). rewrite app_assoc. split; [reflexivity|].
    now apply Forall_app.
Qed.

Lemma adds_only_for_each {A} (l : list A) (body : A -> M unit) :
  (forall x, adds_only P (body x)) -> adds_only P (for_each l body).
Proof.
  intros Hbody. induction l as [|x l IH]; simpl.
  - apply adds_only_ret.
  - apply adds_only_bind; auto.
Qed.

Lemma adds_only_map_M {A B} (f : A -> M B) (l : list A) :
  (forall x, adds_only P (f x)) -> adds_only P (map_M f l).
Proof.
  intros Hf. induction l as [|x l IH]; simpl.
  - apply adds_only_ret.
  - apply adds_only_bind; [auto|]. intros y.
    apply adds_only_bind; [auto|]. intros ys. apply adds_only_ret.
Qed.

Lemma adds_only_vget (v : pyval) (key : string) (default : pyval) :
  adds_only P (vget v key default).
Proof. destruct v; first [apply adds_only_ret | apply adds_only_raise]. Qed.

Lemma adds_only_getitem (v : pyval) (key : string) :
  adds_only P (getitem v key).
Proof.
  destruct v; simpl; try apply adds_only_raise.
  destruct (d !! key); [apply adds_only_ret | apply adds_only_raise].
Qed.

Lemma adds_only_format_4f (v : pyval) : adds_only P (format_4f v).
Proof. destruct v; first [apply adds_only_ret | apply adds_only_raise]. Qed.

Lemma adds_only_ge_float (v : pyval) (t : float) : adds_only P (ge_float v t).
Proof. destruct v; first [apply adds_only_ret | apply adds_only_raise]. Qed.

End AddsOnly.

(** Takes a computation apart along its binds, handlers and case
    distinctions; what is left are the calls it performs. *)
Ltac adds_only_step :=
  first
    [ apply adds_only_ret | apply adds_only_raise | apply adds_only_lift
    | apply adds_only_vget | apply adds_only_getitem
    | apply adds_only_format_4f | apply adds_only_ge_float
    | apply adds_only_bind; [|intros ?]
    | apply adds_only_try_catch; [|intros ?]
    | apply adds_only_map_M; intros ?
    | apply adds_only_for_each; intros ?
    | apply adds_only_perform; first [reflexivity | exact I]
    | match goal with
      | |- adds_only _ (match ?x with _ => _ end) => destruct x
      | |- adds_only _ (if ?x then _ else _) => destruct x
      end ].

Ltac adds_only_tac := repeat adds_only_step.

Section NoLLM.
Context `{World}.

Lemma embed_query_no_llm (query : str) :
  adds_only not_llm (Embed.embed_query query).
Proof. unfold Embed.embed_query. adds_only_tac. Qed.

Lemma initialize_endee_index_no_llm (index_name : option str) :
  adds_only not_llm (Store.initialize_endee_index index_name).
Proof. unfold Store.initialize_endee_index. adds_only_tac. Qed.

Lemma format_results_no_llm (raw_results : list pyval) :
  adds_only not_llm (Retrieve.format_results raw_results).
Proof.
  unfold Retrieve.format_results, Retrieve.format_result. adds_only_tac.
Qed.

Lemma retrieve_context_no_llm (query : str) (top_k ef : option Z)
    (index_name : option str) :
  adds_only not_llm (Retrieve.retrieve_context query top_k ef index_name).
Proof.
  unfold Retrieve.retrieve_context.
  apply adds_only_try_catch; [|intros; apply adds_only_raise].
  apply adds_only_bind; [apply embed_query_no_llm|]. intros [|x v].
  - apply adds_only_ret.
  - apply adds_only_bind; [apply initialize_endee_index_no_llm|]. intros index.
    apply adds_only_bind; [apply adds_only_perform; reflexivity|].
    intros raw_results.
    apply adds_only_bind; [apply format_results_no_llm|]. intros formatted.
    adds_only_tac.
Qed.

End NoLLM.

(** ** [generate_answer] when nothing is retrieved *)

(** C2. Whenever retrieval returns zero chunks for a query,
    [generate_answer] returns exactly the fixed answer, an empty source
    list and [num_chunks = 0]; it stops where retrieval stopped, so it
    makes no call of its own, and no event since the start of the call
    is a call to an LLM provider. *)
Theorem generate_answer_no_context `{World} (cfg : Config.t) (query : str)
    (top_k ef : option Z) (index_name : option str) (include_sources : bool)
    (h h' : list event) :
  Retrieve.retrieve_context query
    (Some (default Config.DEFAULT_TOP_K top_k)) ef index_name h = (Ok [], h') ->
  Rag.generate_answer cfg query top_k ef index_name include_sources h
  = (Ok no_context_response, h')
  /\ exists evs, h' = h ++ evs /\ Forall not_llm evs.
Proof.
  intros Hretrieve. split.
  - unfold Rag.generate_answer, try_catch, bind.
    now rewrite Hretrieve.
  - destruct (retrieve_context_no_llm query
                (Some (default Config.DEFAULT_TOP_K top_k)) ef index_name h)
      as (evs & Hh & Hevs).
    rewrite Hretrieve in Hh. now exists evs.
Qed.

(** ** Empty and blank queries *)

Lemma embed_query_blank `{World} (query : str) :
  forallb is_space query = true -> Embed.embed_query query = ret [].
Proof.
  intros Hblank. unfold Embed.embed_query.
  destruct query as [|c query]; [reflexivity|].
  now rewrite (strip_blank (c :: query) Hblank).
Qed.

(** The half of C6 that holds: on an empty or blank query the
    unfiltered [retrieve_context] returns the empty list and makes no
    call at all, to the vector store or to anything else. *)
Lemma retrieve_context_blank_query `{World} (query : str)
    (top_k ef : option Z) (index_name : option str) (h : list event) :
  forallb is_space query = true ->
  Retrieve.retrieve_context query top_k ef index_name h = (Ok [], h).
Proof.
  intros Hblank. unfold Retrieve.retrieve_context.
  now rewrite (embed_query_blank query Hblank).
Qed.

Lemma generate_answer_no_context_witness :
  @Retrieve.retrieve_context demo_world (lit "  ")
    (Some (default Config.DEFAULT_TOP_K None)) None None [] = (Ok [], []) /\
  (@Rag.generate_answer demo_world (Config.Build_t [] []) (lit "  ")
     None None None true []
   = (Ok no_context_response, [])
   /\ exists evs, [] = [] ++ evs /\ Forall not_llm evs).
Proof.
  assert (Hr : @Retrieve.retrieve_context demo_world (lit "  ")
                 (Some (default Config.DEFAULT_TOP_K None)) None None []
               = (Ok [], []))
    by (apply retrieve_context_blank_query; reflexivity).
  split; [exact Hr|].
  exact (@generate_answer_no_context demo_world (Config.Build_t [] [])
           (lit "  ") None None None true [] [] Hr).
Defined.

Section FirstEvent.
Context `{World}.

Lemma adds_only_any {A} (P : event -> Prop) (m : M A) :
  adds_only P m -> adds_only any_event m.
Proof.
  intros Hm h. destruct (Hm h) as (evs & Hh & _).
  exists evs. split; [exact Hh|]. now apply Forall_forall.
Qed.

Lemma try_catch_raise {A} (m : M A) (h : list event) :
  try_catch m raise h = m h.
Proof. unfold try_catch, raise. now destruct (m h) as [[a|e] h']. Qed.

(** A computation that opens with the call [c] and only appends
    afterwards leaves a history that continues [h] with [c]. *)
Lemma bind_perform_first {T B} (c : call T) (k : T -> M B) (h : list event) :
  (forall a, adds_only any_event (k a)) ->
  exists evs, snd (bind (perform c) k h) = h ++ Ev c :: evs.
Proof.
  intros Hk. unfold bind, perform.
  destruct (respond T h c) as [a|e].
  - destruct (Hk a (h ++ [Ev c])) as (evs & -> & _).
    exists evs. now rewrite <- app_assoc.
  - now exists [].
Qed.

Lemma initialize_endee_index_first (index_name : option str) (h : list event) :
  exists evs,
    snd (Store.initialize_endee_index index_name h)
    = h ++ Ev ListIndexes :: evs.
Proof.
  unfold Store.initialize_endee_index. rewrite try_catch_raise.
  apply bind_perform_first. intros existing.
  adds_only_tac; apply adds_only_perform; exact I.
Qed.

End FirstEvent.

(** C6 fails on the filtered path. On an empty or blank query
    [retrieve_with_filter] goes to the vector store all the same: in
    every world it lists the indexes, and in a world whose store answers
    it queries the store with the empty vector and returns the store's
    hits. *)
Theorem retrieve_with_filter_blank_query_reaches_store :
  (forall (W : World) query filters top_k ef index_name h,
     forallb is_space query = true ->
     exists evs,
       snd (Retrieve.retrieve_with_filter query filters top_k ef index_name h)
       = h ++ Ev ListIndexes :: evs) /\
  (let run :=
     @Retrieve.retrieve_with_filter demo_world (lit "")
       (source_filter "notes.txt") None None None [] in
   query_vectors (snd run) = [[]] /\
   match fst run with
   | Ok results => length results
   | Err _ => O
   end = 2%nat).
Proof.
  split.
  - intros W query filters top_k ef index_name h Hblank.
    unfold Retrieve.retrieve_with_filter. rewrite try_catch_raise.
    rewrite (embed_query_blank query Hblank).
    unfold bind at 1, ret at 1.
    set (name := Some (default Config.ENDEE_INDEX_NAME index_name)).
    destruct (initialize_endee_index_first name h) as (evs & Hinit).
    unfold bind at 1.
    destruct (Store.initialize_endee_index name h) as [[index|e] h1];
      simpl in Hinit; subst h1; [|now exists evs].
    assert (adds_only any_event
              (raw_results <-
                 perform (Query index [] (default Config.DEFAULT_TOP_K top_k)
                            (default Config.DEFAULT_EF ef) (Some filters)) ;;
               formatted_results <- Retrieve.format_results raw_results ;;
               ret formatted_results)) as Hrest.
    { apply adds_only_bind; [apply adds_only_perform; exact I|]. intros raw.
      apply adds_only_bind; [|intros; apply adds_only_ret].
      eapply adds_only_any. apply format_results_no_llm. }
    destruct (Hrest (h ++ Ev ListIndexes :: evs)) as (evs' & -> & _).
    exists (evs ++ evs'). now rewrite <- app_assoc.
  - split; vm_compute; reflexivity.
Qed.

Lemma retrieve_with_filter_blank_query_reaches_store_witness :
  forallb is_space (lit " ") = true /\
  exists evs,
    snd (@Retrieve.retrieve_with_filter demo_world (lit " ")
           (source_filter "notes.txt") None None None [])
    = [] ++ Ev ListIndexes :: evs.
Proof.
  split; [reflexivity|].
  exact (proj1 retrieve_with_filter_blank_query_reaches_store demo_world
           (lit " ") (source_filter "notes.txt") None None None []
           eq_refl).
Defined.

(** ** Index initialisation *)

Lemma initialize_endee_index_absent `{World} (index_name : option str)
    (h : list event) (existing_indexes : list str) :
  let name := default Config.ENDEE_INDEX_NAME index_name in
  respond _ h ListIndexes = Ok existing_indexes ->
  name ∉ existing_indexes ->
  Store.initialize_endee_index index_name h =
  match respond _ (h ++ [Ev ListIndexes]) (create_index_call name) with
  | Ok _ => fetch_index name (h ++ [Ev ListIndexes; Ev (create_index_call name)])
  | Err create_error =>
      if contains (lit "already exists") (lower (exn_msg create_error))
      then fetch_index name (h ++ [Ev ListIndexes; Ev (create_index_call name)])
      else (Err create_error, h ++ [Ev ListIndexes; Ev (create_index_call name)])
  end.
Proof.
  intros name Hlist Habsent.
  unfold Store.initialize_endee_index. rewrite try_catch_raise.
  fold name. unfold bind at 1, perform at 1. rewrite Hlist.
  rewrite bool_decide_eq_false_2 by exact Habsent.
  unfold bind at 1, bind at 1, try_catch, perform at 1.
  fold (create_index_call name).
  replace ((h ++ [Ev ListIndexes]) ++ [Ev (create_index_call name)])
    with (h ++ [Ev ListIndexes; Ev (create_index_call name)])
    by now rewrite <- app_assoc.
  destruct (respond unit (h ++ [Ev ListIndexes]) (create_index_call name))
    as [[]|create_error]; [reflexivity|].
  destruct (contains _ _); reflexivity.
Qed.

(** C7. When the index is not in the listing and the request to create
    it fails, [initialize_endee_index] looks at the message of the
    failure: if it says that the index already exists, the failure is
    dropped and the function goes on exactly as after a successful
    creation, fetching the handle of the existing index and returning
    it; any other failure of the creation is raised again as it is. *)
Theorem initialize_endee_index_idempotent `{World} (index_name : option str)
    (h : list event) (existing_indexes : list str) (create_error : exn) :
  let name := default Config.ENDEE_INDEX_NAME index_name in
  let h2 := h ++ [Ev ListIndexes; Ev (create_index_call name)] in
  respond _ h ListIndexes = Ok existing_indexes ->
  name ∉ existing_indexes ->
  respond _ (h ++ [Ev ListIndexes]) (create_index_call name) = Err create_error ->
  (contains (lit "already exists") (lower (exn_msg create_error)) = true ->
     Store.initialize_endee_index index_name h = fetch_index name h2 /\
     forall index info,
       respond _ h2 (GetIndex name) = Ok index ->
       respond _ (h2 ++ [Ev (GetIndex name)]) (Describe index) = Ok info ->
       Store.initialize_endee_index index_name h
       = (Ok index, h2 ++ [Ev (GetIndex name); Ev (Describe index)]))
  /\
  (contains (lit "already exists") (lower (exn_msg create_error)) = false ->
     Store.initialize_endee_index index_name h = (Err create_error, h2)).
Proof.
  intros name h2 Hlist Habsent Hcreate.
  pose proof (initialize_endee_index_absent index_name h existing_indexes
                Hlist Habsent) as Hinit.
  fold name in Hinit. rewrite Hcreate in Hinit. fold h2 in Hinit.
  split; intros Hmsg; rewrite Hmsg in Hinit; [|exact Hinit].
  split; [exact Hinit|].
  intros index info Hget Hdescribe. rewrite Hinit.
  unfold fetch_index, bind, perform, ret.
  rewrite Hget, Hdescribe. now rewrite <- app_assoc.
Qed.

Lemma initialize_endee_index_idempotent_witness :
  let create_error :=
    Raise "Exception" (lit "Conflict: Index 'rag_documents' already exists") in
  @respond racing_world _ [] ListIndexes = Ok [] /\
  (Config.ENDEE_INDEX_NAME ∉ @nil str) /\
  @respond racing_world _ [Ev ListIndexes]
    (create_index_call Config.ENDEE_INDEX_NAME) = Err create_error /\
  contains (lit "already exists") (lower (exn_msg create_error)) = true /\
  @Store.initialize_endee_index racing_world None []
  = (Ok 7%nat,
     [Ev ListIndexes; Ev (create_index_call Config.ENDEE_INDEX_NAME);
      Ev (GetIndex Config.ENDEE_INDEX_NAME); Ev (Describe 7%nat)]).
Proof.
  intros create_error.
  assert (Habsent : Config.ENDEE_INDEX_NAME ∉ @nil str) by apply not_elem_of_nil.
  assert (Hmsg : contains (lit "already exists") (lower (exn_msg create_error))
                 = true) by (vm_compute; reflexivity).
  split; [reflexivity|]. split; [exact Habsent|].
  split; [reflexivity|]. split; [exact Hmsg|].
  exact (proj2 (proj1 (@initialize_endee_index_idempotent racing_world None []
                         [] create_error eq_refl Habsent eq_refl) Hmsg)
           7%nat (VDict ∅) eq_refl eq_refl).
Defined.

(** ** Batched upsert *)

Lemma slice_nonneg {A} (v : list A) (i j : Z) :
  0 <= i <= j ->
  slice v i j = take (Z.to_nat (j - i)) (drop (Z.to_nat i) v).
Proof.
  intros Hij. unfold slice, norm_idx.
  destruct (Z.ltb_spec i 0), (Z.ltb_spec j 0); try lia.
  unfold len.
  destruct (Z.le_gt_cases (Z.of_nat (length v)) i) as [Hi|Hi].
  - rewrite (Z.min_r i) by lia.
    rewrite !drop_ge by lia. now rewrite !take_nil.
  - rewrite (Z.min_l i) by lia.
    destruct (Z.le_gt_cases j (Z.of_nat (length v))) as [Hj|Hj].
    + now rewrite (Z.min_l j) by lia.
    + rewrite (Z.min_r j) by lia.
      rewrite !take_ge; [reflexivity | |]; rewrite length_drop; lia.
Qed.

Lemma range_from_zero (n step : Z) :
  0 < step -> 0 <= n ->
  range 0 n step =
  Ok (map (fun k => 0 + Z.of_nat k * step)
        (seq 0 (Z.to_nat ((n + step - 1) / step)))).
Proof.
  intros Hstep Hn. unfold range.
  destruct (Z.eqb_spec step 0); [lia|].
  destruct (Z.ltb_spec 0 step); [|lia].
  do 3 f_equal.
  destruct (Z.ltb_spec 0 n).
  - replace (n + step - 1) with (n - 0 - 1 + 1 * step) by lia.
    now rewrite Z.div_add by lia.
  - replace n with 0 by lia. now rewrite Z.div_small by lia.
Qed.

(** The first [m] batches, put end to end, are the first [m * step]
    records. *)
Lemma concat_batches {A} (v : list A) (step : Z) (m : nat) :
  0 < step ->
  concat (map (fun i => slice v i (i + step))
            (map (fun k => 0 + Z.of_nat k * step) (seq 0 m)))
  = take (m * Z.to_nat step) v.
Proof.
  intros Hstep. induction m as [|m IH]; [reflexivity|].
  rewrite seq_S, !map_app, concat_app, IH. cbn [map concat Nat.add].
  rewrite app_nil_r, slice_nonneg by lia.
  replace (Z.to_nat (0 + Z.of_nat m * step + step - (0 + Z.of_nat m * step)))
    with (Z.to_nat step) by lia.
  replace (Z.to_nat (0 + Z.of_nat m * step)) with (m * Z.to_nat step)%nat by lia.
  rewrite take_take_drop. f_equal. lia.
Qed.

Lemma batch_count_covers (n step : Z) :
  0 < step -> 0 <= n -> n <= (n + step - 1) / step * step.
Proof.
  intros Hstep Hn.
  pose proof (Z.div_mod (n + step - 1) step ltac:(lia)).
  pose proof (Z.mod_pos_bound (n + step - 1) step Hstep). lia.
Qed.

Lemma batch_start_inside (n step : Z) (k : nat) :
  0 < step -> 0 <= n ->
  (k < Z.to_nat ((n + step - 1) / step))%nat ->
  Z.of_nat k * step < n.
Proof.
  intros Hstep Hn Hk.
  pose proof (Z.div_mod (n + step - 1) step ltac:(lia)).
  pose proof (Z.mod_pos_bound (n + step - 1) step Hstep).
  assert (Z.of_nat k + 1 <= (n + step - 1) / step) by lia.
  nia.
Qed.

(** A loop whose body is one call that lets its failure through: the
    calls issued are those of a front part of the list, the failing one
    included; the loop succeeds only if it went through the whole
    list, and it does when every call succeeds. *)
Lemma for_each_perform `{World} {A} (calls : A -> call unit) (l : list A)
    (h : list event) :
  let run := for_each l (fun x => try_catch (perform (calls x)) raise) h in
  exists issued,
    issued `prefix_of` l /\
    snd run = h ++ map (fun x => Ev (calls x)) issued /\
    (fst run = Ok tt -> issued = l) /\
    ((forall h' x, respond unit h' (calls x) = Ok tt) -> fst run = Ok tt).
Proof.
  revert h. induction l as [|x l IH]; intros h; cbv zeta; cbn [for_each].
  - exists []. cbn. rewrite app_nil_r. repeat split; reflexivity.
  - unfold bind. rewrite try_catch_raise.
    change (perform (calls x) h)
      with (respond unit h (calls x), h ++ [Ev (calls x)]).
    destruct (respond unit h (calls x)) as [[]|e] eqn:Hx; cbv beta iota.
    + destruct (IH (h ++ [Ev (calls x)])) as (issued & Hpre & Hh & Hok & Hall).
      exists (x :: issued). repeat split.
      * now apply prefix_cons.
      * rewrite Hh. cbn. now rewrite <- app_assoc.
      * intros Hrun. now rewrite (Hok Hrun).
      * exact Hall.
    + exists [x]. cbn. repeat split.
      * apply prefix_cons, prefix_nil.
      * discriminate.
      * intros Hall. rewrite Hall in Hx. discriminate.
Qed.

Lemma vector_obj_pure `{World} (P : event -> Prop) (chunk : pyval) :
  adds_only P (Store.vector_obj chunk).
Proof. unfold Store.vector_obj. adds_only_tac. Qed.

(** C8. For every list of vector records and every positive batch size,
    [batch_upsert] works through consecutive batches of the list: put
    end to end they are the list, none is empty or longer than the
    batch size, and they are upserted in order, one call each, up to the
    first call that fails; the call succeeds only when every batch has
    been upserted, and it does succeed when the store accepts every
    batch. [store_embeddings] upserts through [batch_upsert] with the
    cap of 1000, so it never sends more than 1000 records in one
    call. *)
Theorem batch_upsert_batches :
  (forall (W : World) index (vectors : list pyval) batch_size h,
     0 < batch_size ->
     let run := Store.batch_upsert index vectors batch_size h in
     exists batches : list (list pyval),
       concat batches = vectors /\
       Forall (fun b => 0 < len b <= batch_size) batches /\
       exists issued,
         issued `prefix_of` batches /\
         snd run = h ++ map (fun b => Ev (Upsert index b)) issued /\
         (fst run = Ok tt -> issued = batches) /\
         ((forall h' b, respond unit h' (Upsert index b) = Ok tt) ->
          fst run = Ok tt)) /\
  (forall (W : World) chunks index_name,
     adds_only (upsert_at_most 1000) (Store.store_embeddings chunks index_name)).
Proof.
  assert (Hbatch : forall (W : World) index (vectors : list pyval) batch_size h,
     0 < batch_size ->
     let run := Store.batch_upsert index vectors batch_size h in
     exists batches : list (list pyval),
       concat batches = vectors /\
       Forall (fun b => 0 < len b <= batch_size) batches /\
       exists issued,
         issued `prefix_of` batches /\
         snd run = h ++ map (fun b => Ev (Upsert index b)) issued /\
         (fst run = Ok tt -> issued = batches) /\
         ((forall h' b, respond unit h' (Upsert index b) = Ok tt) ->
          fst run = Ok tt)).
  { intros W index vectors batch_size h Hsize run.
    pose proof (len_nonneg vectors) as Hlen.
    set (count := Z.to_nat ((len vectors + batch_size - 1) / batch_size)).
    set (starts := map (fun k => 0 + Z.of_nat k * batch_size) (seq 0 count)).
    set (batches := map (fun i => slice vectors i (i + batch_size)) starts).
    assert (run = for_each batches
                    (fun b => try_catch (perform (Upsert index b)) raise) h)
      as Hrun.
    { subst run. unfold Store.batch_upsert.
      rewrite range_from_zero by assumption.
      unfold bind, lift. fold count. fold starts. subst batches.
      clear. revert h. induction starts as [|i starts IH]; intros h;
        [reflexivity|].
      cbn [map for_each]. unfold bind.
      destruct (try_catch _ _ h) as [[[]|e] h1]; [apply IH | reflexivity]. }
    exists batches. split; [|split].
    - subst batches starts. rewrite concat_batches by assumption.
      apply take_ge.
      pose proof (batch_count_covers (len vectors) batch_size Hsize Hlen).
      subst count. unfold len in *. nia.
    - subst batches starts. rewrite !Forall_map. apply Forall_forall.
      intros k [_ Hk]%elem_of_seq. cbn in Hk. cbn beta.
      pose proof (batch_start_inside (len vectors) batch_size k Hsize Hlen Hk).
      assert (0 <= Z.of_nat k * batch_size) by nia.
      rewrite len_slice.
      rewrite (norm_idx_id _ (0 + Z.of_nat k * batch_size)) by lia.
      unfold norm_idx.
      destruct (Z.ltb_spec (0 + Z.of_nat k * batch_size + batch_size) 0); lia.
    - rewrite Hrun.
      apply (for_each_perform (fun b => Upsert index b) batches h). }
  split; [exact Hbatch|].
  intros W chunks index_name. unfold Store.store_embeddings.
  apply adds_only_bind.
  { unfold Store.initialize_endee_index. adds_only_tac. }
  intros index. apply adds_only_bind.
  { apply adds_only_map_M. intros chunk. apply vector_obj_pure. }
  intros vectors h.
  destruct (Hbatch W index vectors 1000 h ltac:(lia))
    as (batches & _ & Hsmall & issued & [rest ->] & Hh & _).
  exists (map (fun b => Ev (Upsert index b)) issued).
  split; [exact Hh|].
  apply Forall_map. apply Forall_app in Hsmall as [Hsmall _].
  eapply Forall_impl; [exact Hsmall|]. intros b Hb. exact (proj2 Hb).
Qed.

Lemma batch_upsert_batches_witness :
  0 < 2 /\
  let vectors := [VInt 1; VInt 2; VInt 3] in
  let run := @Store.batch_upsert demo_world 7%nat vectors 2 [] in
  exists batches : list (list pyval),
    concat batches = vectors /\
    Forall (fun b => 0 < len b <= 2) batches /\
    exists issued,
      issued `prefix_of` batches /\
      snd run = [] ++ map (fun b => Ev (Upsert 7%nat b)) issued /\
      (fst run = Ok tt -> issued = batches) /\
      ((forall h' b, @respond demo_world unit h' (Upsert 7%nat b) = Ok tt) ->
       fst run = Ok tt).
Proof.
  assert (Hpos : 0 < 2) by lia.
  split; [exact Hpos|].
  exact (proj1 batch_upsert_batches demo_world 7%nat
           [VInt 1; VInt 2; VInt 3] 2 [] Hpos).
Defined.

(** For instance, three records in batches of two go out as two calls. *)
Example batch_upsert_three_by_two :
  @Store.batch_upsert demo_world 7%nat [VInt 1; VInt 2; VInt 3] 2 []
  = (Ok tt, [Ev (Upsert 7%nat [VInt 1; VInt 2]); Ev (Upsert 7%nat [VInt 3])]).
Proof. vm_compute. reflexivity. Qed.

(** ** Formatting the hits of the store *)

Lemma meta_of_get (d m : dict) :
  meta_of d = Some m -> get d "meta" (VDict ∅) = VDict m.
Proof.
  unfold meta_of, get. destruct (d !! "meta") as [[]|]; congruence.
Qed.

Lemma format_result_run (d m : dict) (h : list event) :
  meta_of d = Some m ->
  exists f, Retrieve.format_result (VDict d) h = (Ok f, h)
            /\ formats_to (VDict d) f.
Proof.
  intros Hmeta. pose proof (meta_of_get d m Hmeta) as Hget.
  unfold Retrieve.format_result, bind.
  repeat (cbn [vget]; unfold ret; cbn beta iota; rewrite ?Hget).
  eexists. split; [reflexivity|].
  exists d, m. repeat split; try reflexivity; assumption.
Qed.

(** A comprehension whose items are computed without a call and
    without a failure. *)
Lemma map_M_pure {A B} (f : A -> M B) (R : A -> B -> Prop) (l : list A)
    (h : list event) :
  Forall (fun x => exists y, f x h = (Ok y, h) /\ R x y) l ->
  exists ys, map_M f l h = (Ok ys, h) /\ Forall2 R l ys.
Proof.
  induction 1 as [|x l (y & Hy & HR) _ (ys & Hys & HRs)]; cbn [map_M].
  - exists []. split; [reflexivity | constructor].
  - exists (y :: ys). unfold bind. rewrite Hy, Hys.
    split; [reflexivity | now constructor].
Qed.

(** ** Semantic search *)

Lemma ge_float_comparable (threshold : float) (ctx : dict) (h : list event) :
  comparable ctx = true ->
  ge_float (similarity_of ctx) threshold h
  = (Ok (above_threshold threshold ctx), h).
Proof.
  unfold comparable, above_threshold.
  destruct (similarity_of ctx); try discriminate; reflexivity.
Qed.

(** A similarity that is no number cannot be compared. *)
Lemma ge_float_raises (threshold : float) (ctx : dict) (h : list event) :
  comparable ctx = false ->
  exists e, ge_float (similarity_of ctx) threshold h = (Err e, h) /\
            exn_type e = "TypeError"%string.
Proof.
  unfold comparable.
  destruct (similarity_of ctx); try discriminate; intros _;
    eexists; split; reflexivity.
Qed.

Lemma filter_by_threshold_raises (threshold : float)
    (context_results : list dict) (h : list event) :
  Exists (fun ctx => comparable ctx = false) context_results ->
  exists e, ApiHandlers.filter_by_threshold threshold context_results h
            = (Err e, h) /\
            exn_type e = "TypeError"%string.
Proof.
  induction context_results as [|ctx rest IH]; intros Hex;
    [inversion Hex|].
  cbn [ApiHandlers.filter_by_threshold]. unfold bind.
  fold (similarity_of ctx).
  destruct (comparable ctx) eqn:Hctx.
  - rewrite (ge_float_comparable threshold ctx h Hctx).
    apply Exists_cons in Hex as [Hhere|Hlater]; [congruence|].
    destruct (IH Hlater) as (e & -> & He). now exists e.
  - destruct (ge_float_raises threshold ctx h Hctx) as (e & -> & He).
    now exists e.
Qed.

(** The similarity of a formatted result is the one of the hit, and
    [None] when the hit has none. *)
Lemma formats_to_similarity (r : pyval) (f : dict) :
  formats_to r f ->
  similarity_of f = default VNone (similarity_in r).
Proof.
  intros (d & m & -> & _ & _ & _ & Hsim & _).
  unfold similarity_of, get at 1. rewrite Hsim.
  unfold get. cbn [similarity_in]. now destruct (d !! "similarity").
Qed.

Lemma formatted_without_similarity (hits : list pyval)
    (formatted : list dict) :
  Forall2 formats_to hits formatted ->
  Exists (fun r => similarity_in r = None) hits ->
  Exists (fun ctx => comparable ctx = false) formatted.
Proof.
  induction 1 as [|r f hits formatted Hf _ IH]; intros Hex;
    [inversion Hex|].
  apply Exists_cons in Hex as [Hhere|Hlater].
  - left. unfold comparable.
    now rewrite (formats_to_similarity r f Hf), Hhere.
  - right. now apply IH.
Qed.

(** C9. [search_semantic] does not count a missing similarity as 0.0.
    Whatever the query, the threshold and the filters, when the store
    answers the search with readable hits one of which carries no
    similarity, the others carrying a number, the search ends with a
    [TypeError] once the store has been queried and returns no result
    list. [format_results] records the missing similarity as [None], so
    the default of [ctx.get("similarity", 0.0)] never applies and the
    comparison with the threshold raises; without filters, when the hit
    is the first one, the log line of [retrieve_context] raises before
    it. *)
Theorem search_semantic_missing_similarity `{World} (query : str)
    (top_k : Z) (threshold : float) (filters : option dict)
    (h h1 h2 : list event) (start_time : float) (x : float)
    (v : list float) (index : handle) (hits : list pyval) :
  let search :=
    Query index (x :: v) top_k Config.DEFAULT_EF
      (ApiHandlers.has_filters filters) in
  respond float h Time = Ok start_time ->
  Embed.embed_query query (h ++ [Ev Time]) = (Ok (x :: v), h1) ->
  Store.initialize_endee_index (Some Config.ENDEE_INDEX_NAME) h1
  = (Ok index, h2) ->
  respond _ h2 search = Ok hits ->
  Forall readable_hit hits ->
  Forall number_if_present hits ->
  Exists (fun r => similarity_in r = None) hits ->
  exists e,
    ApiHandlers.search_semantic query top_k threshold filters h
    = (Err e, h2 ++ [Ev search]) /\
    exn_type e = "TypeError"%string.
Proof.
  intros search Hclock Hembed Hinit Hsearch Hraw Hnum Hmissing.
  assert (exists formatted,
             Retrieve.format_results hits (h2 ++ [Ev search])
             = (Ok formatted, h2 ++ [Ev search]) /\
             Forall2 formats_to hits formatted)
    as (formatted & Hformat & Hshape).
  { apply map_M_pure. eapply Forall_impl; [exact Hraw|].
    intros r (d & m & -> & Hmeta). exact (format_result_run d m _ Hmeta). }
  pose proof (formatted_without_similarity hits formatted Hshape Hmissing)
    as Hbad.
  destruct (filter_by_threshold_raises threshold formatted
              (h2 ++ [Ev search]) Hbad) as (e & Hfilter & He).
  unfold ApiHandlers.search_semantic.
  unfold bind at 1, perform at 1. rewrite Hclock.
  subst search.
  destruct (ApiHandlers.has_filters filters) as [d|].
  - exists e. split; [|exact He].
    unfold bind at 1.
    unfold Retrieve.retrieve_with_filter. rewrite try_catch_raise.
    cbv zeta. cbn [default]. unfold id.
    unfold bind at 1. rewrite Hembed.
    unfold bind at 1. rewrite Hinit.
    unfold bind at 1, perform at 1. rewrite Hsearch.
    unfold bind at 1. rewrite Hformat.
    unfold ret at 1.
    unfold bind at 1. rewrite Hfilter. reflexivity.
  - unfold bind at 1.
    unfold Retrieve.retrieve_context. rewrite try_catch_raise.
    cbv zeta. cbn [default]. unfold id.
    unfold bind at 1. rewrite Hembed.
    unfold bind at 1. rewrite Hinit.
    unfold bind at 1, perform at 1. rewrite Hsearch.
    unfold bind at 1. rewrite Hformat.
    destruct Hshape as [|r f hits' formatted' Hf Hrest];
      [inversion Hmissing|].
    pose proof (formats_to_similarity r f Hf) as Hsim.
    destruct Hf as (d & m & -> & _ & _ & _ & Hkey & _).
    unfold bind at 1. unfold bind at 1. cbn [getitem]. rewrite Hkey.
    unfold ret at 1.
    apply Forall_cons in Hnum as [Htop _].
    unfold get. cbn [similarity_in] in Htop.
    unfold number_if_present in Htop. cbn [similarity_in] in Htop.
    destruct (d !! "similarity") as [s|] eqn:Hs.
    + specialize (Htop s eq_refl).
      exists e. split; [|exact He].
      destruct s; try discriminate; cbn [format_4f]; unfold ret at 1;
        unfold ret at 1; unfold bind at 1; rewrite Hfilter; reflexivity.
    + eexists. split; reflexivity.
Qed.

Lemma search_semantic_missing_similarity_witness :
  let search := Query 7%nat [1%float; 0%float] 10 Config.DEFAULT_EF None in
  let h2 :=
    [Ev Time; Ev (Encode (lit "vectors")); Ev ListIndexes;
     Ev (GetIndex Config.ENDEE_INDEX_NAME); Ev (Describe 7%nat)] in
  Exists (fun r => similarity_in r = None)
    [hit "doc_0" 0.95 "Vectors are compared by cosine similarity.";
     VDict {[ "id" := VStr (lit "doc_1");
              "meta" := VDict {[ "text" := VStr (lit "An index is created once.") ]} ]}] /\
  exists e,
    @ApiHandlers.search_semantic partial_hit_world (lit "vectors") 10 0.9
      None []
    = (Err e, h2 ++ [Ev search]) /\
    exn_type e = "TypeError"%string.
Proof.
  intros search h2.
  set (d0 := {[ "id" := VStr (lit "doc_0");
           "similarity" := VFloat 0.95;
           "distance" := VFloat (1 - 0.95);
           "meta" := VDict {[ "text" := VStr (lit "Vectors are compared by cosine similarity.");
                              "source" := VStr (lit "notes.txt");
                              "chunk_index" := VInt 0 ]} ]} : dict).
  set (d1 := {[ "id" := VStr (lit "doc_1");
                "meta" := VDict {[ "text" := VStr (lit "An index is created once.") ]} ]} : dict).
  assert (Hmissing : Exists (fun r => similarity_in r = None)
                       [VDict d0; VDict d1])
    by (right; left; reflexivity).
  assert (Hraw : Forall readable_hit [VDict d0; VDict d1]).
  { repeat constructor.
    - exists d0, {[ "text" := VStr (lit "Vectors are compared by cosine similarity.");
                    "source" := VStr (lit "notes.txt");
                    "chunk_index" := VInt 0 ]}. split; reflexivity.
    - exists d1, {[ "text" := VStr (lit "An index is created once.") ]}.
      split; reflexivity. }
  assert (Hnum : Forall number_if_present [VDict d0; VDict d1]).
  { repeat constructor.
    - intros s [= <-]. reflexivity.
    - intros s [=]. }
  split; [exact Hmissing|].
  exact (@search_semantic_missing_similarity partial_hit_world
           (lit "vectors") 10 0.9 None [] [Ev Time; Ev (Encode (lit "vectors"))]
           h2 0%float 1%float [0%float] 7%nat [VDict d0; VDict d1]
           eq_refl eq_refl eq_refl eq_refl Hraw Hnum Hmissing).
Defined.

(** When the only hit carries no similarity, the search fails with and
    without filters. *)
Example search_semantic_hit_without_similarity :
  raised (fst (@ApiHandlers.search_semantic bare_hit_world (lit "index") 10 0
                 (Some (source_filter "notes.txt")) []))
  = Some "TypeError"%string /\
  raised (fst (@ApiHandlers.search_semantic bare_hit_world (lit "index") 10 0
                 None []))
  = Some "TypeError"%string.
Proof. split; vm_compute; reflexivity. Qed.

(** * Further properties of the code *)

(** ** Does the chunking loop of [src/ingest.py] end? *)

Lemma boundary_chars_not_empty :
  Forall (fun b => 0 < len b) Ingest.boundary_chars.
Proof. repeat constructor. Qed.

Lemma find_boundary_after (text : str) (lo hi : Z) (bs : list str) (e : Z) :
  Forall (fun b => 0 < len b) bs ->
  Ingest.find_boundary text lo hi bs = Some e ->
  norm_idx (len text) lo < e.
Proof.
  induction bs as [|b bs IH]; simpl; [discriminate|].
  intros [Hb Hbs]%Forall_cons.
  destruct (Z.eqb_spec (rfind text b lo hi) (-1)) as [|Hne]; [now apply IH|].
  intros [= <-].
  destruct (rfind_range text b lo hi) as [|[? ?]]; [contradiction|lia].
Qed.

(** From a [start] that is not negative, and with a positive chunk
    size, [end] always lands after [start]. *)
Lemma adjust_end_progress (text : str) (chunk_size start : Z) :
  0 < chunk_size -> 0 <= start ->
  start < Ingest.adjust_end text chunk_size start.
Proof.
  intros Hcs Hstart. unfold Ingest.adjust_end.
  destruct (Z.ltb_spec (start + chunk_size) (len text)) as [Hin|]; [|lia].
  destruct (Ingest.find_boundary _ _ _ _) as [e|] eqn:Hb.
  - apply find_boundary_after in Hb; [|apply boundary_chars_not_empty].
    assert (0 <= chunk_size / 2) by (apply Z.div_pos; lia).
    assert (chunk_size / 2 <= chunk_size) by (apply Z.div_le_upper_bound; lia).
    rewrite norm_idx_id in Hb by lia. lia.
  - destruct (negb _ && (start <? _)) eqn:Hsp; [|lia].
    apply andb_prop in Hsp as [_ Hsp]. now apply Z.ltb_lt in Hsp.
Qed.

Lemma chunk_step_progress (text : str) (chunk_size overlap : Z)
    (chunks : list str) (start : Z) :
  0 < chunk_size -> overlap <= 0 -> 0 <= start ->
  start < snd (Ingest.chunk_step text chunk_size overlap (chunks, start)).
Proof.
  intros Hcs Hov Hstart. unfold Ingest.chunk_step.
  pose proof (adjust_end_progress text chunk_size start Hcs Hstart).
  cbn [snd].
  match goal with |- context [if ?g then _ else _] => destruct g end; lia.
Qed.

Lemma chunk_loop_terminates (fuel : nat) (text : str) (chunk_size overlap : Z)
    (chunks : list str) (start : Z) :
  0 < chunk_size -> overlap <= 0 -> 0 <= start ->
  (Z.to_nat (len text - start) <= fuel)%nat ->
  exists result,
    Ingest.chunk_loop fuel text chunk_size overlap (chunks, start) = Some result.
Proof.
  intros Hcs Hov. revert chunks start.
  induction fuel as [|fuel IH]; intros chunks start Hstart Hfuel;
    rewrite chunk_loop_eq; cbn [fst snd];
    destruct (Z.ltb_spec start (len text)); try lia; eauto.
  pose proof (chunk_step_progress text chunk_size overlap chunks start
                Hcs Hov Hstart) as Hprog.
  destruct (Ingest.chunk_step text chunk_size overlap (chunks, start))
    as [chunks' start'].
  cbn [snd] in Hprog. apply IH; lia.
Qed.

(** X1. With a positive chunk size and no overlap (or a negative one)
    [chunk_text] always ends: every pass moves [start] forward, so
    [len(text)] passes are enough for any text. *)
Theorem chunk_text_terminates_without_overlap (fuel : nat) (text : str)
    (chunk_size overlap : Z) :
  0 < chunk_size -> overlap <= 0 -> (length text <= fuel)%nat ->
  exists chunks, Ingest.chunk_text fuel text chunk_size overlap = Some chunks.
Proof.
  intros Hcs Hov Hfuel. unfold Ingest.chunk_text.
  destruct text as [|c text]; [eauto|].
  apply chunk_loop_terminates; try lia.
  unfold len in *. lia.
Qed.

Lemma chunk_text_terminates_without_overlap_witness :
  0 < 20 /\ 0 <= 0 /\
  (length (lit "Hello world. This is a test! And more text here") <= 47)%nat /\
  exists chunks,
    Ingest.chunk_text 47 (lit "Hello world. This is a test! And more text here")
      20 0 = Some chunks.
Proof.
  assert (H1 : 0 < 20) by lia.
  assert (H2 : 0 <= 0) by lia.
  assert (H3 : (length (lit "Hello world. This is a test! And more text here")
                <= 47)%nat) by (vm_compute; lia).
  repeat split; try assumption.
  exact (chunk_text_terminates_without_overlap 47
           (lit "Hello world. This is a test! And more text here") 20 0 H1 H2 H3).
Defined.

Lemma len_slice_to_le {A} (s : list A) (n : Z) : 0 <= n -> len (slice_to s n) <= n.
Proof.
  intros Hn. unfold slice_to. rewrite len_slice.
  pose proof (len_nonneg s).
  unfold norm_idx. destruct (Z.ltb_spec n 0), (Z.ltb_spec 0 0); lia.
Qed.

(** A pass that cuts its chunk [overlap] characters after [start]
    leaves [start] where it was. *)
Lemma chunk_step_stuck (text : str) (chunk_size overlap : Z)
    (chunks : list str) (start : Z) :
  0 <= overlap < start ->
  Ingest.adjust_end text chunk_size start = start + overlap ->
  snd (Ingest.chunk_step text chunk_size overlap (chunks, start)) = start.
Proof.
  intros Hov Hend. unfold Ingest.chunk_step. rewrite Hend. cbn [snd].
  replace (start + overlap - overlap) with start by lia.
  match goal with
  | |- context [match ?l with [] => false | _ => _ end] => destruct l as [|c0 l0]
  end; [reflexivity|].
  pose proof (len_slice_to_le (List.last (c0 :: l0) []) overlap ltac:(lia)).
  destruct (Z.leb_spec start (len (slice_to (List.last (c0 :: l0) []) overlap)));
    [lia | reflexivity].
Qed.

Lemma chunk_loop_stuck (fuel : nat) (text : str) (chunk_size overlap : Z)
    (chunks : list str) (start : Z) :
  start < len text ->
  0 <= overlap < start ->
  Ingest.adjust_end text chunk_size start = start + overlap ->
  Ingest.chunk_loop fuel text chunk_size overlap (chunks, start) = None.
Proof.
  intros Hin Hov Hend. revert chunks.
  induction fuel as [|fuel IH]; intros chunks; rewrite chunk_loop_eq;
    cbn [snd]; destruct (Z.ltb_spec start (len text)); try lia;
    [reflexivity|].
  pose proof (chunk_step_stuck text chunk_size overlap chunks start Hov Hend)
    as Hstep.
  destruct (Ingest.chunk_step text chunk_size overlap (chunks, start))
    as [chunks' start'].
  cbn [snd] in Hstep. subst start'. apply IH.
Qed.

Lemma chunk_loop_reaches (text : str) (chunk_size overlap : Z) (n m k : nat) :
  (k + m = n)%nat ->
  (forall j, (j < n)%nat ->
     snd (chunk_state text chunk_size overlap j) < len text) ->
  (forall fuel,
     Ingest.chunk_loop fuel text chunk_size overlap
       (chunk_state text chunk_size overlap n) = None) ->
  forall fuel,
    Ingest.chunk_loop fuel text chunk_size overlap
      (chunk_state text chunk_size overlap k) = None.
Proof.
  intros Hkm Hrun Hstuck. revert k Hkm.
  induction m as [|m IH]; intros k Hkm fuel.
  - replace k with n by lia. apply Hstuck.
  - rewrite chunk_loop_eq.
    destruct (Z.ltb_spec (snd (chunk_state text chunk_size overlap k))
                (len text)) as [_|Hout].
    + destruct fuel as [|fuel]; [reflexivity|].
      apply (IH (S k)). lia.
    + specialize (Hrun k ltac:(lia)). lia.
Qed.

(** X2. The chunking loop can run for ever, also with an overlap
    smaller than the chunk size. Whenever the loop reaches a [start],
    larger than the overlap, from which the pass cuts its chunk exactly
    [overlap] characters further (the only space of the window is
    there), the next pass starts at the same place: [chunk_text] never
    returns, whatever the number of passes allowed. *)
Theorem chunk_text_never_returns (text : str) (chunk_size overlap : Z)
    (n : nat) :
  let start := snd (chunk_state text chunk_size overlap n) in
  (forall j, (j < n)%nat ->
     snd (chunk_state text chunk_size overlap j) < len text) ->
  start < len text ->
  0 <= overlap < start ->
  Ingest.adjust_end text chunk_size start = start + overlap ->
  forall fuel, Ingest.chunk_text fuel text chunk_size overlap = None.
Proof.
  intros start Hrun Hin Hov Hend fuel.
  assert (text <> []) as Htext.
  { intros ->. unfold len in Hin. simpl in Hin. lia. }
  rewrite chunk_text_nonempty by assumption.
  apply (chunk_loop_reaches text chunk_size overlap n n 0 eq_refl Hrun).
  intros fuel'.
  destruct (chunk_state text chunk_size overlap n) as [chunks start'] eqn:Hst.
  now apply chunk_loop_stuck.
Qed.

Lemma chunk_text_never_returns_witness :
  let text := lit "aaaaaaaaaa bbbbbbbbbb" in
  let start := snd (chunk_state text 10 2 1) in
  (forall j, (j < 1)%nat -> snd (chunk_state text 10 2 j) < len text) /\
  start < len text /\
  0 <= 2 < start /\
  Ingest.adjust_end text 10 start = start + 2 /\
  forall fuel, Ingest.chunk_text fuel text 10 2 = None.
Proof.
  intros text start.
  assert (H1 : forall j, (j < 1)%nat -> snd (chunk_state text 10 2 j) < len text).
  { intros j Hj. replace j with O by lia. vm_compute. reflexivity. }
  assert (H2 : start < len text) by (vm_compute; reflexivity).
  assert (H3 : 0 <= 2 < start) by (vm_compute; split; congruence).
  assert (H4 : Ingest.adjust_end text 10 start = start + 2)
    by (vm_compute; reflexivity).
  repeat split; try assumption; try apply H3.
  exact (chunk_text_never_returns text 10 2 1 H1 H2 H3 H4).
Defined.

(** ** Batch sizes that are not positive *)

(** X3. [batch_upsert] with a batch size of 0 raises [ValueError]
    before any call to the store; with a negative batch size it upserts
    nothing at all and still returns normally, whatever the records. *)
Theorem batch_upsert_nonpositive `{World} (index : handle)
    (vectors : list pyval) (batch_size : Z) (h : list event) :
  batch_size <= 0 ->
  snd (Store.batch_upsert index vectors batch_size h) = h /\
  raised (fst (Store.batch_upsert index vectors batch_size h))
  = if batch_size =? 0 then Some "ValueError"%string else None.
Proof.
  intros Hsize. unfold Store.batch_upsert, range, bind, lift.
  pose proof (len_nonneg vectors).
  destruct (Z.eqb_spec batch_size 0); [now split|].
  destruct (Z.ltb_spec 0 batch_size); [lia|].
  destruct (Z.ltb_spec (len vectors) 0); [lia|].
  now split.
Qed.

Lemma batch_upsert_nonpositive_witness :
  -1 <= 0 /\
  snd (@Store.batch_upsert demo_world 7%nat [VInt 1; VInt 2] (-1) []) = [] /\
  raised (fst (@Store.batch_upsert demo_world 7%nat [VInt 1; VInt 2] (-1) []))
  = if -1 =? 0 then Some "ValueError"%string else None.
Proof.
  assert (Hneg : -1 <= 0) by lia.
  split; [exact Hneg|].
  exact (@batch_upsert_nonpositive demo_world 7%nat [VInt 1; VInt 2] (-1) []
           Hneg).
Defined.

(** ** When the embedding model is called *)

Lemma lstrip_nil_blank (s : str) : lstrip s = [] -> forallb is_space s = true.
Proof.
  induction s as [|c s IH]; simpl; [reflexivity|].
  destruct (is_space c); [exact IH | discriminate].
Qed.

Lemma lstrip_head (s : str) (c : ascii) (t : str) :
  lstrip s = c :: t -> is_space c = false.
Proof.
  induction s as [|c0 s IH]; simpl; [discriminate|].
  destruct (is_space c0) eqn:Hc0; [exact IH|].
  now intros [= <- _].
Qed.

Lemma forallb_rev {A} (f : A -> bool) (l : list A) :
  forallb f (rev l) = forallb f l.
Proof.
  induction l as [|x l IH]; [reflexivity|].
  cbn [rev forallb]. rewrite forallb_app, IH. cbn [forallb].
  destruct (f x), (forallb f l); reflexivity.
Qed.

(** Trimming leaves nothing only for a text of white space. *)
Lemma strip_nil_blank (s : str) : strip s = [] -> forallb is_space s = true.
Proof.
  unfold strip, rstrip. intros Hs.
  apply (f_equal (@rev ascii)) in Hs. rewrite rev_involutive in Hs.
  cbn [rev] in Hs. apply lstrip_nil_blank in Hs. rewrite forallb_rev in Hs.
  destruct (lstrip s) as [|c t] eqn:Hl; [now apply lstrip_nil_blank|].
  apply lstrip_head in Hl. cbn [forallb] in Hs.
  rewrite Hl in Hs. discriminate.
Qed.

(** X4. [embed_query] calls the embedding model exactly when the query
    holds a character that is not white space: for an empty or blank
    query it returns the empty vector and calls nothing; for any other
    query it makes the one call, and the model's answer or failure is
    its own. *)
Theorem embed_query_calls_model `{World} (query : str) (h : list event) :
  Embed.embed_query query h =
  if forallb is_space query then (Ok [], h)
  else (respond _ h (Encode query), h ++ [Ev (Encode query)]).
Proof.
  destruct (forallb is_space query) eqn:Hblank.
  - now rewrite (embed_query_blank query Hblank).
  - unfold Embed.embed_query.
    destruct query as [|c query]; [discriminate|].
    destruct (strip (c :: query)) as [|c' s] eqn:Hstrip.
    + apply strip_nil_blank in Hstrip. congruence.
    + now rewrite try_catch_raise.
Qed.

(** ** The excerpt of a source *)

(** X5. The excerpt of a text is the text itself up to 150 characters,
    and its first 150 characters followed by ["..."] beyond: it is
    never longer than 153 characters, and it is made without any
    call. *)
Theorem excerpt_of_text (text : str) (h : list event) :
  exists ex,
    Rag.excerpt (VStr text) h = (Ok (VStr ex), h) /\
    len ex <= 153 /\
    (len text <= 150 -> ex = text) /\
    (150 < len text -> ex = take 150 text ++ lit "...").
Proof.
  unfold Rag.excerpt.
  destruct (Z.ltb_spec 150 (len text)) as [Hlong|Hshort].
  - eexists. split; [reflexivity|].
    assert (slice_to text 150 = take 150 text) as ->.
    { unfold slice_to. rewrite slice_nonneg by lia. now rewrite drop_0. }
    split; [|split; [lia | reflexivity]].
    rewrite len_app. unfold len. rewrite length_take.
    change (length (lit "...")) with 3%nat. lia.
  - exists text. split; [reflexivity|]. split; [lia|]. split; [reflexivity | lia].
Qed.

(** ** An index that is already there *)

Lemma fetch_index_no_create `{World} (name : str) :
  adds_only (fun e => is_create e = false) (fetch_index name).
Proof. unfold fetch_index. adds_only_tac. Qed.

(** X6. When the listing holds the index name, [initialize_endee_index]
    makes no request to create it: it goes straight to fetching and
    describing the index, and returns the handle the store gave when
    both succeed. *)
Theorem initialize_endee_index_existing `{World} (index_name : option str)
    (h : list event) (existing_indexes : list str) :
  let name := default Config.ENDEE_INDEX_NAME index_name in
  respond _ h ListIndexes = Ok existing_indexes ->
  name ∈ existing_indexes ->
  Store.initialize_endee_index index_name h
  = fetch_index name (h ++ [Ev ListIndexes]) /\
  (exists evs,
     snd (Store.initialize_endee_index index_name h) = h ++ evs /\
     Forall (fun e => is_create e = false) evs) /\
  (forall index info,
     respond _ (h ++ [Ev ListIndexes]) (GetIndex name) = Ok index ->
     respond _ (h ++ [Ev ListIndexes; Ev (GetIndex name)]) (Describe index)
     = Ok info ->
     Store.initialize_endee_index index_name h
     = (Ok index,
        h ++ [Ev ListIndexes; Ev (GetIndex name); Ev (Describe index)])).
Proof.
  intros name Hlist Hin.
  assert (Store.initialize_endee_index index_name h
          = fetch_index name (h ++ [Ev ListIndexes])) as Hinit.
  { unfold Store.initialize_endee_index. rewrite try_catch_raise.
    fold name. unfold bind at 1, perform at 1. rewrite Hlist.
    now rewrite bool_decide_eq_true_2 by exact Hin. }
  split; [exact Hinit|]. split.
  - rewrite Hinit.
    destruct (fetch_index_no_create name (h ++ [Ev ListIndexes]))
      as (evs & -> & Hevs).
    exists (Ev ListIndexes :: evs). rewrite <- app_assoc.
    split; [reflexivity|]. now constructor.
  - intros index info Hget Hdescribe. rewrite Hinit.
    unfold fetch_index, bind, perform, ret. rewrite Hget.
    rewrite <- !app_assoc. cbn [app]. now rewrite Hdescribe.
Qed.

Lemma initialize_endee_index_existing_witness :
  @respond demo_world _ [] ListIndexes = Ok [Config.ENDEE_INDEX_NAME] /\
  (Config.ENDEE_INDEX_NAME ∈ [Config.ENDEE_INDEX_NAME]) /\
  @Store.initialize_endee_index demo_world None []
  = (Ok 7%nat,
     [] ++ [Ev ListIndexes; Ev (GetIndex Config.ENDEE_INDEX_NAME);
            Ev (Describe 7%nat)]).
Proof.
  assert (Hin : Config.ENDEE_INDEX_NAME ∈ [Config.ENDEE_INDEX_NAME])
    by apply list_elem_of_here.
  split; [reflexivity|]. split; [exact Hin|].
  exact (proj2 (proj2 (@initialize_endee_index_existing demo_world None []
                         [Config.ENDEE_INDEX_NAME] eq_refl Hin))
           7%nat (VDict ∅) eq_refl eq_refl).
Defined.

(** ** The shape of formatted results *)

(** X7. On hits that are dicts, with a [meta] that is a dict or absent,
    [format_results] never fails and makes no call; it returns one
    result per hit, in order, each with exactly the six keys [id],
    [similarity], [distance], [text], [source] and [chunk_index]; a
    missing [id], [similarity] or [distance] is recorded as [None], a
    missing [text] or [source] as the empty string and a missing
    [chunk_index] as 0. *)
Theorem format_results_shape (raw_results : list pyval)
    (h : list event) :
  Forall readable_hit raw_results ->
  exists formatted,
    Retrieve.format_results raw_results h = (Ok formatted, h) /\
    Forall2 formats_to raw_results formatted.
Proof.
  intros Hraw. unfold Retrieve.format_results.
  apply map_M_pure.
  eapply Forall_impl; [exact Hraw|].
  intros r (d & m & -> & Hmeta). exact (format_result_run d m h Hmeta).
Qed.

Lemma format_results_shape_witness :
  Forall readable_hit [hit "doc_0" 0.95 "text"; VDict ∅] /\
  exists formatted,
    Retrieve.format_results [hit "doc_0" 0.95 "text"; VDict ∅] []
    = (Ok formatted, []) /\
    Forall2 formats_to [hit "doc_0" 0.95 "text"; VDict ∅] formatted.
Proof.
  assert (Hraw : Forall readable_hit [hit "doc_0" 0.95 "text"; VDict ∅]).
  { repeat constructor.
    - eexists _, _. split; [reflexivity|]. reflexivity.
    - exists ∅, ∅. split; reflexivity. }
  split; [exact Hraw|].
  exact (format_results_shape _ [] Hraw).
Defined.

(** ** The health check of [api.py] *)

(** X8. [health_check] never raises. It makes one call, the listing of
    the indexes, and reports [healthy] and [connected] when the store
    answers, [degraded] and the text of the error when it does not; the
    [llm] component is reported [ready] in both cases. *)
Theorem health_check_never_raises `{World} (h : list event) :
  exists status components,
    Api.health_check h = (Ok status, h ++ [Ev ListIndexes]) /\
    status !! "components" = Some (VDict components) /\
    components !! "llm" = Some (VStr (lit "ready")) /\
    match respond _ h ListIndexes with
    | Ok _ =>
        status !! "status" = Some (VStr (lit "healthy")) /\
        components !! "endee" = Some (VStr (lit "connected"))
    | Err e =>
        status !! "status" = Some (VStr (lit "degraded")) /\
        components !! "endee" = Some (VStr (lit "error: " ++ exn_msg e))
    end.
Proof.
  unfold Api.health_check, try_catch, bind, perform, ret.
  destruct (respond (list str) h ListIndexes) as [names|e];
    eexists _, _; repeat split; reflexivity.
Qed.

(** ** What reaches the store *)

Lemma perform_ok_inv `{World} {T} (c : call T) (h h' : list event) (a : T) :
  perform c h = (Ok a, h') -> h' = h ++ [Ev c] /\ respond T h c = Ok a.
Proof. unfold perform. now intros [= -> <-]. Qed.

Lemma upserts_app (h1 h2 : list event) :
  upserts (h1 ++ h2) = upserts h1 ++ upserts h2.
Proof. apply omap_app. Qed.

Lemma upserts_none (evs : list event) : Forall not_upsert evs -> upserts evs = [].
Proof.
  induction 1 as [|e evs He _ IH]; [reflexivity|].
  destruct e as [T c]. destruct c; try contradiction; exact IH.
Qed.

(** A computation that upserts nothing leaves the upserts of the
    history as they were. *)
Lemma upserts_unchanged {A} (m : M A) (h h' : list event) (r : result A) :
  adds_only not_upsert m -> m h = (r, h') -> upserts h' = upserts h.
Proof.
  intros Hm Hrun. destruct (Hm h) as (evs & Hh & Hevs).
  rewrite Hrun in Hh. cbn in Hh. subst h'.
  now rewrite upserts_app, (upserts_none evs Hevs), app_nil_r.
Qed.

Lemma initialize_endee_index_no_upsert `{World} (index_name : option str) :
  adds_only not_upsert (Store.initialize_endee_index index_name).
Proof. unfold Store.initialize_endee_index. adds_only_tac. Qed.

Lemma embed_query_no_upsert `{World} (query : str) :
  adds_only not_upsert (Embed.embed_query query).
Proof. unfold Embed.embed_query. adds_only_tac. Qed.

(** Building the record of a chunk makes no call, and succeeds exactly
    on a chunk that carries every field. *)
Lemma vector_obj_run (chunk : pyval) (h : list event) :
  exists r, Store.vector_obj chunk h = (r, h) /\ is_ok r = storable_chunk chunk.
Proof.
  unfold Store.vector_obj, storable_chunk, has_key, bind.
  destruct chunk as [| | | | | |d]; try (eexists; split; reflexivity).
  cbn [getitem].
  destruct (d !! "id"); [|eexists; split; reflexivity].
  destruct (d !! "embedding"); [|eexists; split; reflexivity].
  destruct (d !! "text"); [|eexists; split; reflexivity].
  destruct (d !! "metadata") as [md|]; [|eexists; split; reflexivity].
  destruct md as [| | | | | |m]; try (eexists; split; reflexivity).
  cbn [getitem ret].
  destruct (m !! "source"); [|eexists; split; reflexivity].
  destruct (m !! "chunk_index"); [|eexists; split; reflexivity].
  destruct (m !! "total_chunks"); eexists; split; reflexivity.
Qed.

Lemma map_M_vector_obj_run (chunks : list pyval) (h : list event) :
  exists r,
    map_M Store.vector_obj chunks h = (r, h) /\
    is_ok r = forallb storable_chunk chunks.
Proof.
  induction chunks as [|chunk chunks (rs & Hrs & Hoks)]; cbn [map_M forallb].
  - eexists. split; reflexivity.
  - destruct (vector_obj_run chunk h) as (r & Hr & Hok).
    unfold bind. rewrite Hr, <- Hok.
    destruct r as [v|e]; [|eexists; split; reflexivity].
    rewrite Hrs, <- Hoks.
    destruct rs; eexists; split; reflexivity.
Qed.

(** X9. When some chunk lacks one of the fields [store_embeddings]
    reads ([id], [embedding], [text], or [source], [chunk_index],
    [total_chunks] under [metadata]), [store_embeddings] fails, and it
    fails before anything is upserted: the records of the chunks that
    are complete do not reach the store either. *)
Theorem store_embeddings_incomplete_chunk `{World} (chunks : list pyval)
    (index_name : option str) (h : list event) :
  forallb storable_chunk chunks = false ->
  is_ok (fst (Store.store_embeddings chunks index_name h)) = false /\
  upserts (snd (Store.store_embeddings chunks index_name h)) = upserts h.
Proof.
  intros Hbad. unfold Store.store_embeddings, bind.
  destruct (Store.initialize_endee_index index_name h) as [[index|e] h1] eqn:Hinit.
  - pose proof (upserts_unchanged _ _ _ _
                  (initialize_endee_index_no_upsert index_name) Hinit) as Hup.
    destruct (map_M_vector_obj_run chunks h1) as (r & Hr & Hok).
    rewrite Hr. rewrite Hbad in Hok.
    destruct r as [vectors|e]; [discriminate|]. now split.
  - split; [reflexivity|].
    exact (upserts_unchanged _ _ _ _
             (initialize_endee_index_no_upsert index_name) Hinit).
Qed.

Lemma store_embeddings_incomplete_chunk_witness :
  let chunks :=
    [VDict {[ "id" := VStr (lit "a"); "text" := VStr (lit "t");
              "embedding" := VList [VFloat 1];
              "metadata" := VDict {[ "source" := VStr (lit "s");
                                     "chunk_index" := VInt 0;
                                     "total_chunks" := VInt 2 ]} ]};
     VDict {[ "id" := VStr (lit "b"); "text" := VStr (lit "u") ]}] in
  forallb storable_chunk chunks = false /\
  is_ok (fst (@Store.store_embeddings demo_world chunks None [])) = false /\
  upserts (snd (@Store.store_embeddings demo_world chunks None [])) = upserts [].
Proof.
  intros chunks.
  assert (Hbad : forallb storable_chunk chunks = false)
    by (vm_compute; reflexivity).
  split; [exact Hbad|].
  exact (@store_embeddings_incomplete_chunk demo_world chunks None [] Hbad).
Defined.

(** ** Ingestion through the API *)

Lemma map_M_length {A B} (f : A -> M B) (l : list A) (h h' : list event)
    (ys : list B) :
  map_M f l h = (Ok ys, h') -> length ys = length l.
Proof.
  revert h h' ys. induction l as [|x l IH]; intros h h' ys; cbn [map_M].
  - now intros [<- _]%ret_ok_inv.
  - intros (y & h1 & _ & Hrest)%bind_ok_inv.
    apply bind_ok_inv in Hrest as (ys' & h2 & Hys & Hret).
    apply ret_ok_inv in Hret as [<- _]. cbn. f_equal. exact (IH _ _ _ Hys).
Qed.

Lemma enumerate_length {A} (start : Z) (l : list A) :
  length (enumerate start l) = length l.
Proof.
  revert start. induction l as [|x l IH]; intros start; cbn; [reflexivity|].
  now rewrite IH.
Qed.

Lemma ingest_vector_no_upsert `{World} (document_id : str)
    (source : option str) (tags : option (list str)) (metadata : option dict)
    (entry : Z * str) :
  adds_only not_upsert
    (ApiHandlers.ingest_vector document_id source tags metadata entry).
Proof.
  unfold ApiHandlers.ingest_vector. destruct entry as [idx chunk].
  apply adds_only_bind; [apply embed_query_no_upsert|]. intros embedding.
  adds_only_tac.
Qed.

(** X10. Whenever [ingest_document] returns, it has sent the document
    to the store in exactly one upsert, not split into batches, that
    holds one record per chunk: as many records as the [chunk_count] it
    reports. *)
Theorem ingest_document_one_upsert `{World} (text : str)
    (source : option str) (tags : option (list str)) (metadata : option dict)
    (h h' : list event) (response : dict) :
  ApiHandlers.ingest_document text source tags metadata h = (Ok response, h') ->
  exists vectors,
    upserts h' = upserts h ++ [vectors] /\
    response !! "chunk_count" = Some (VInt (len vectors)) /\
    len vectors = len (ApiHandlers.chunk_text text Config.CHUNK_SIZE).
Proof.
  unfold ApiHandlers.ingest_document. intros Hrun.
  apply bind_ok_inv in Hrun as (t0 & h1 & [-> _]%perform_ok_inv & Hrun).
  apply bind_ok_inv in Hrun as (id & h2 & [-> _]%perform_ok_inv & Hrun).
  apply bind_ok_inv in Hrun as (index & h3 & Hinit & Hrun).
  apply bind_ok_inv in Hrun as (vectors & h4 & Hvectors & Hrun).
  apply bind_ok_inv in Hrun as ([] & h5 & [-> _]%perform_ok_inv & Hrun).
  apply bind_ok_inv in Hrun as (t1 & h6 & [-> _]%perform_ok_inv & Hrun).
  apply ret_ok_inv in Hrun as [<- <-].
  pose proof (upserts_unchanged _ _ _ _
                (initialize_endee_index_no_upsert _) Hinit) as Hup3.
  pose proof (upserts_unchanged _ _ _ _
                (adds_only_map_M _ _ (ingest_vector_no_upsert _ _ _ _))
                Hvectors) as Hup4.
  pose proof (map_M_length _ _ _ _ _ Hvectors) as Hlen.
  rewrite enumerate_length in Hlen.
  exists vectors. split; [|split].
  - rewrite !upserts_app, Hup4, Hup3, !upserts_app. cbn.
    now rewrite !app_nil_r.
  - unfold len. rewrite Hlen. reflexivity.
  - unfold len. now rewrite Hlen.
Qed.

Lemma ingest_document_one_upsert_witness :
  exists response h',
    @ApiHandlers.ingest_document demo_world (lit "One. Two.") None None None []
    = (Ok response, h') /\
    exists vectors,
      upserts h' = upserts [] ++ [vectors] /\
      response !! "chunk_count" = Some (VInt (len vectors)) /\
      len vectors = len (ApiHandlers.chunk_text (lit "One. Two.") Config.CHUNK_SIZE).
Proof.
  assert (Hok : is_ok (fst (@ApiHandlers.ingest_document demo_world
                              (lit "One. Two.") None None None [])) = true)
    by (vm_compute; reflexivity).
  revert Hok.
  destruct (@ApiHandlers.ingest_document demo_world (lit "One. Two.")
              None None None []) as [[response|e] h'] eqn:Hrun;
    [intros _ | discriminate].
  exists response, h'. split; [reflexivity|].
  exact (@ingest_document_one_upsert demo_world (lit "One. Two.")
           None None None [] h' response Hrun).
Defined.

(** X11. The metadata a caller passes to [ingest_document] is merged
    last into the metadata of every record: each of its entries is
    stored as given, also under a key the ingestion fills itself
    ([document_id], [chunk_index], [source], [tags], [text],
    [timestamp]), whose own value is then lost; the chunk's text is
    stored under [text] only when the caller's metadata has no such
    key. The record's [id] is the document id, an underscore and the
    chunk's index. *)
Theorem ingest_vector_metadata_wins `{World} (document_id : str)
    (source : option str) (tags : option (list str)) (metadata : dict)
    (idx : Z) (chunk : str) (h h' : list event) (record : pyval) :
  ApiHandlers.ingest_vector document_id source tags (Some metadata) (idx, chunk) h
  = (Ok record, h') ->
  exists fields meta,
    record = VDict fields /\
    fields !! "id" = Some (VStr (document_id ++ lit "_" ++ of_Z idx)) /\
    fields !! "meta" = Some (VDict meta) /\
    (forall key value, metadata !! key = Some value ->
                       meta !! key = Some value) /\
    (metadata !! "text" = None -> meta !! "text" = Some (VStr chunk)) /\
    (metadata !! "document_id" = None ->
     meta !! "document_id" = Some (VStr document_id)).
Proof.
  unfold ApiHandlers.ingest_vector. intros Hrun.
  apply bind_ok_inv in Hrun as (embedding & h1 & _ & Hrun).
  apply bind_ok_inv in Hrun as (timestamp & h2 & _ & Hrun).
  apply ret_ok_inv in Hrun as [<- _].
  eexists _, _. split; [reflexivity|]. split; [reflexivity|].
  split; [reflexivity|]. cbn [default]. split; [|split].
  - intros key value Hkey. now apply lookup_union_Some_l.
  - intros Hnone. now rewrite lookup_union_r.
  - intros Hnone. now rewrite lookup_union_r.
Qed.

Lemma ingest_vector_metadata_wins_witness :
  let metadata : dict := {[ "text" := VStr (lit "something else") ]} in
  exists record h',
    @ApiHandlers.ingest_vector demo_world (lit "doc") None None (Some metadata)
      (0, lit "The chunk.") []
    = (Ok record, h') /\
    exists fields meta,
      record = VDict fields /\
      fields !! "id" = Some (VStr (lit "doc" ++ lit "_" ++ of_Z 0)) /\
      fields !! "meta" = Some (VDict meta) /\
      (forall key value, metadata !! key = Some value ->
                         meta !! key = Some value) /\
      (metadata !! "text" = None -> meta !! "text" = Some (VStr (lit "The chunk."))) /\
      (metadata !! "document_id" = None ->
       meta !! "document_id" = Some (VStr (lit "doc"))).
Proof.
  intros metadata.
  assert (Hok : is_ok (fst (@ApiHandlers.ingest_vector demo_world (lit "doc")
                              None None (Some metadata) (0, lit "The chunk.") []))
                = true) by (vm_compute; reflexivity).
  revert Hok.
  destruct (@ApiHandlers.ingest_vector demo_world (lit "doc") None None
              (Some metadata) (0, lit "The chunk.") [])
    as [[record|e] h'] eqn:Hrun; [intros _ | discriminate].
  exists record, h'. split; [reflexivity|].
  exact (@ingest_vector_metadata_wins demo_world (lit "doc") None None metadata
           0 (lit "The chunk.") [] h' record Hrun).
Defined.

(** ** Answers with context *)

Lemma map_M_ok_Forall2 {A B} (f : A -> M B) (R : A -> B -> Prop) (l : list A)
    (h h' : list event) (ys : list B) :
  (forall x h0 y h1, f x h0 = (Ok y, h1) -> R x y) ->
  map_M f l h = (Ok ys, h') -> Forall2 R l ys.
Proof.
  intros Hf. revert h h' ys.
  induction l as [|x l IH]; intros h h' ys; cbn [map_M].
  - intros [<- _]%ret_ok_inv. constructor.
  - intros (y & h1 & Hy & Hrest)%bind_ok_inv.
    apply bind_ok_inv in Hrest as (ys' & h2 & Hys & Hret).
    apply ret_ok_inv in Hret as [<- _].
    constructor; [exact (Hf _ _ _ _ Hy) | exact (IH _ _ _ Hys)].
Qed.

Lemma format_result_ok_keys (result : pyval) (h h' : list event) (f : dict) :
  Retrieve.format_result result h = (Ok f, h') -> dom f = formatted_keys.
Proof.
  unfold Retrieve.format_result. intros Hrun.
  repeat (apply bind_ok_inv in Hrun as (? & ? & _ & Hrun)).
  apply ret_ok_inv in Hrun as [<- _]. reflexivity.
Qed.

(** Every result [retrieve_context] returns has the six keys. *)
Lemma retrieve_context_ok_keys `{World} (query : str) (top_k ef : option Z)
    (index_name : option str) (h h' : list event) (chunks : list dict) :
  Retrieve.retrieve_context query top_k ef index_name h = (Ok chunks, h') ->
  Forall (fun chunk => dom chunk = formatted_keys) chunks.
Proof.
  unfold Retrieve.retrieve_context. rewrite try_catch_raise. intros Hrun.
  apply bind_ok_inv in Hrun as (embedding & h1 & _ & Hrun).
  destruct embedding as [|x v].
  - apply ret_ok_inv in Hrun as [<- _]. constructor.
  - apply bind_ok_inv in Hrun as (index & h2 & _ & Hrun).
    apply bind_ok_inv in Hrun as (raw & h3 & _ & Hrun).
    apply bind_ok_inv in Hrun as (formatted & h4 & Hformat & Hrun).
    apply bind_ok_inv in Hrun as ([] & h5 & _ & Hrun).
    apply ret_ok_inv in Hrun as [<- _].
    unfold Retrieve.format_results in Hformat.
    apply (map_M_ok_Forall2 _ (fun _ f => dom f = formatted_keys)) in Hformat.
    + clear -Hformat. induction Hformat; constructor; assumption.
    + intros r h0 f h0'. apply format_result_ok_keys.
Qed.

Lemma dom_lookup (d : dict) (keys : gset string) (key : string) :
  dom d = keys -> key ∈ keys -> exists v, d !! key = Some v.
Proof.
  intros <- Hin. apply elem_of_dom in Hin as [v Hv]. eauto.
Qed.

Lemma excerpt_str_run (text : str) (h : list event) :
  exists ex, Rag.excerpt (VStr text) h = (Ok (VStr ex), h).
Proof.
  unfold Rag.excerpt. destruct (150 <? len text); eexists; reflexivity.
Qed.

Lemma source_entry_run (chunk : dict) (h : list event) :
  dom chunk = formatted_keys -> has_text chunk = true ->
  exists entry, Rag.source_entry chunk h = (Ok entry, h)
                /\ is_source_entry entry.
Proof.
  intros Hdom Htext. unfold has_text in Htext.
  destruct (dom_lookup chunk _ "source" Hdom ltac:(set_solver)) as [v1 H1].
  destruct (dom_lookup chunk _ "chunk_index" Hdom ltac:(set_solver)) as [v2 H2].
  destruct (dom_lookup chunk _ "similarity" Hdom ltac:(set_solver)) as [v3 H3].
  destruct (chunk !! "text") as [[| | | |s| |]|] eqn:H4; try discriminate.
  unfold Rag.source_entry, bind. cbn [getitem]. rewrite H1, H2, H3, H4.
  unfold ret at 1 2 3 4. cbv beta iota.
  destruct (excerpt_str_run s h) as (ex & ->).
  eexists. split; [reflexivity|].
  eexists. split; [reflexivity|]. reflexivity.
Qed.

(** X12. When retrieval has returned at least one chunk, every chunk
    with a text, and the LLM chain has answered, [generate_answer]
    returns that answer, [num_chunks] equal to the number of chunks
    retrieved, and, when sources are asked for, one source per chunk,
    in order, each with exactly the keys [source], [chunk_index],
    [similarity] and [excerpt]; when they are not asked for the
    response has no [sources] key at all. It makes no call after the
    LLM's answer. *)
Theorem generate_answer_with_context `{World} (cfg : Config.t) (query : str)
    (top_k ef : option Z) (index_name : option str) (include_sources : bool)
    (h h1 h2 : list event) (chunks : list dict) (answer : str) :
  Retrieve.retrieve_context query
    (Some (default Config.DEFAULT_TOP_K top_k)) ef index_name h
  = (Ok chunks, h1) ->
  chunks <> [] ->
  forallb has_text chunks = true ->
  Rag.call_llm cfg (Rag.construct_prompt query chunks) h1 = (Ok answer, h2) ->
  exists response,
    Rag.generate_answer cfg query top_k ef index_name include_sources h
    = (Ok response, h2) /\
    response !! "answer" = Some (VStr answer) /\
    response !! "num_chunks" = Some (VInt (len chunks)) /\
    if include_sources
    then exists sources,
        response !! "sources" = Some (VList sources) /\
        length sources = length chunks /\
        Forall is_source_entry sources
    else response !! "sources" = None.
Proof.
  intros Hretrieve Hne Htext Hllm.
  pose proof (retrieve_context_ok_keys _ _ _ _ _ _ _ Hretrieve) as Hkeys.
  assert (exists sources,
             map_M Rag.source_entry chunks h2 = (Ok sources, h2) /\
             Forall2 (fun _ entry => is_source_entry entry) chunks sources)
    as (sources & Hsources & Hentries).
  { apply map_M_pure. apply Forall_forall. intros chunk Hin.
    apply source_entry_run.
    - now apply (proj1 (Forall_forall _ _) Hkeys).
    - apply list_elem_of_In in Hin.
      now apply (proj1 (forallb_forall _ _) Htext). }
  unfold Rag.generate_answer. rewrite try_catch_raise.
  unfold bind at 1. rewrite Hretrieve.
  destruct chunks as [|chunk chunks]; [contradiction|].
  unfold bind at 1. rewrite Hllm.
  destruct include_sources.
  - unfold bind. rewrite Hsources.
    eexists. split; [reflexivity|].
    split; [reflexivity|]. split; [reflexivity|].
    exists sources. split; [reflexivity|]. split.
    + symmetry. exact (Forall2_length _ _ _ Hentries).
    + clear -Hentries. induction Hentries; constructor; assumption.
  - eexists. split; [reflexivity|].
    split; [reflexivity|]. split; reflexivity.
Qed.

Lemma generate_answer_with_context_witness :
  exists chunks h1 answer h2,
    @Retrieve.retrieve_context demo_world (lit "vectors")
      (Some (default Config.DEFAULT_TOP_K None)) None None []
    = (Ok chunks, h1) /\
    chunks <> [] /\
    forallb has_text chunks = true /\
    @Rag.call_llm demo_world local_only
      (@Rag.construct_prompt demo_world (lit "vectors") chunks) h1
    = (Ok answer, h2) /\
    exists response,
      @Rag.generate_answer demo_world local_only (lit "vectors")
        None None None true []
      = (Ok response, h2) /\
      response !! "answer" = Some (VStr answer) /\
      response !! "num_chunks" = Some (VInt (len chunks)) /\
      exists sources,
        response !! "sources" = Some (VList sources) /\
        length sources = length chunks /\
        Forall is_source_entry sources.
Proof.
  assert (Hcheck :
            match fst (@Retrieve.retrieve_context demo_world (lit "vectors")
                         (Some (default Config.DEFAULT_TOP_K None)) None None [])
            with
            | Ok chunks =>
                negb (bool_decide (length chunks = O)) && forallb has_text chunks
            | Err _ => false
            end = true) by (vm_compute; reflexivity).
  revert Hcheck.
  destruct (@Retrieve.retrieve_context demo_world (lit "vectors")
              (Some (default Config.DEFAULT_TOP_K None)) None None [])
    as [[chunks|e] h1] eqn:Hretrieve; [cbn [fst] | discriminate].
  intros [Hne Htext]%andb_prop.
  assert (chunks <> []) as Hne'.
  { intros ->. discriminate Hne. }
  destruct (@Rag.call_llm demo_world local_only
              (@Rag.construct_prompt demo_world (lit "vectors") chunks) h1)
    as [[answer|e] h2] eqn:Hllm.
  - exists chunks, h1, answer, h2.
    split; [reflexivity|]. split; [exact Hne'|]. split; [exact Htext|].
    split; [exact Hllm|].
    exact (@generate_answer_with_context demo_world local_only (lit "vectors")
             None None None true [] h1 h2 chunks answer
             Hretrieve Hne' Htext Hllm).
  - exfalso.
    pose proof (eq_trans (eq_sym Hllm) (@call_local_llm_run demo_world _ h1))
      as Hbad.
    cbv [respond demo_world make_world make_respond] in Hbad.
    discriminate Hbad.
Defined.

(** ** The sources of [query_rag] *)

Lemma source_entry_ok (chunk : dict) (h h' : list event) (entry : pyval) :
  Rag.source_entry chunk h = (Ok entry, h') -> is_source_entry entry.
Proof.
  unfold Rag.source_entry. intros Hrun.
  repeat (apply bind_ok_inv in Hrun as (? & ? & _ & Hrun)).
  apply ret_ok_inv in Hrun as [<- _].
  eexists. split; reflexivity.
Qed.

Lemma Forall2_Forall_r {A B} (P : B -> Prop) (l : list A) (k : list B) :
  Forall2 (fun _ y => P y) l k -> Forall P k.
Proof. induction 1; constructor; assumption. Qed.

(** With sources asked for, [generate_answer] always returns a
    [sources] list, of entries with the four keys. *)
Lemma generate_answer_ok_sources `{World} (cfg : Config.t) (query : str)
    (top_k ef : option Z) (index_name : option str) (h h' : list event)
    (result : dict) :
  Rag.generate_answer cfg query top_k ef index_name true h = (Ok result, h') ->
  exists sources,
    result !! "sources" = Some (VList sources) /\
    Forall is_source_entry sources.
Proof.
  unfold Rag.generate_answer. rewrite try_catch_raise. intros Hrun.
  apply bind_ok_inv in Hrun as (chunks & h1 & _ & Hrun).
  destruct chunks as [|chunk chunks].
  - apply ret_ok_inv in Hrun as [<- _]. exists []. split; [reflexivity|constructor].
  - apply bind_ok_inv in Hrun as (answer & h2 & _ & Hrun).
    apply bind_ok_inv in Hrun as (sources & h3 & Hsources & Hrun).
    apply ret_ok_inv in Hrun as [<- _].
    exists sources. split; [reflexivity|].
    apply (map_M_ok_Forall2 _ (fun _ entry => is_source_entry entry)) in Hsources.
    + exact (Forall2_Forall_r _ _ _ Hsources).
    + intros c h0 y h0'. apply source_entry_ok.
Qed.

Lemma rag_source_ok (src : pyval) (h h' : list event) (entry : pyval) :
  is_source_entry src ->
  ApiHandlers.rag_source src h = (Ok entry, h') -> bare_rag_source entry.
Proof.
  intros (d & -> & Hdom). unfold ApiHandlers.rag_source. cbn [vget].
  intros Hrun.
  repeat (apply bind_ok_inv in Hrun as (? & ? & [<- _]%ret_ok_inv & Hrun)).
  apply ret_ok_inv in Hrun as [<- _].
  assert (d !! "text" = None) as Htext.
  { apply not_elem_of_dom. rewrite Hdom.
    apply (bool_decide_unpack _). vm_compute. exact I. }
  assert (d !! "tags" = None) as Htags.
  { apply not_elem_of_dom. rewrite Hdom.
    apply (bool_decide_unpack _). vm_compute. exact I. }
  eexists. split; [reflexivity|]. unfold get. rewrite Htext, Htags.
  split; reflexivity.
Qed.

(** X13. Every source [query_rag] returns has an empty [text] and an
    empty list of [tags]: it reads them from the sources of
    [generate_answer], which carry [source], [chunk_index],
    [similarity] and [excerpt] but neither a [text] nor [tags], so the
    defaults always apply. *)
Theorem query_rag_sources_without_text `{World} (cfg : Config.t)
    (question : str) (top_k : Z) (include_sources : bool)
    (filters : option dict) (h h' : list event) (response : dict) :
  ApiHandlers.query_rag cfg question top_k include_sources filters h
  = (Ok response, h') ->
  exists sources,
    response !! "sources" = Some (VList sources) /\
    Forall bare_rag_source sources.
Proof.
  unfold ApiHandlers.query_rag. intros Hrun.
  apply bind_ok_inv in Hrun as (t0 & h1 & _ & Hrun).
  apply bind_ok_inv in Hrun as (t1 & h2 & _ & Hrun).
  apply bind_ok_inv in Hrun as (context_results & h3 & _ & Hrun).
  apply bind_ok_inv in Hrun as (t2 & h4 & _ & Hrun).
  apply bind_ok_inv in Hrun as (t3 & h5 & _ & Hrun).
  apply bind_ok_inv in Hrun as (result & h6 & Hanswer & Hrun).
  apply bind_ok_inv in Hrun as (t4 & h7 & _ & Hrun).
  apply bind_ok_inv in Hrun as (t5 & h8 & _ & Hrun).
  apply bind_ok_inv in Hrun as (sources & h9 & Hsources & Hrun).
  apply ret_ok_inv in Hrun as [<- _].
  exists sources. split; [reflexivity|].
  destruct (generate_answer_ok_sources _ _ _ _ _ _ _ _ Hanswer)
    as (entries & Hentries & Hshape).
  destruct (include_sources && bool_decide (is_Some (result !! "sources"))).
  - apply bind_ok_inv in Hsources as (items & h10 & Hitems & Hsources).
    unfold get in Hitems. rewrite Hentries in Hitems.
    apply ret_ok_inv in Hitems as [<- _].
    apply (map_M_ok_Forall2 _ (fun src entry =>
             is_source_entry src -> bare_rag_source entry)) in Hsources.
    + clear -Hsources Hshape.
      induction Hsources as [|src entry l k Hone _ IH]; [constructor|].
      apply Forall_cons in Hshape as [Hsrc Hl]. constructor; auto.
    + intros src h0 entry h0' Hone Hsrc. exact (rag_source_ok _ _ _ _ Hsrc Hone).
  - apply ret_ok_inv in Hsources as [<- _]. constructor.
Qed.

Lemma query_rag_sources_without_text_witness :
  exists response h',
    @ApiHandlers.query_rag demo_world local_only (lit "vectors") 5 true None []
    = (Ok response, h') /\
    exists sources,
      response !! "sources" = Some (VList sources) /\
      Forall bare_rag_source sources.
Proof.
  assert (Hok : is_ok (fst (@ApiHandlers.query_rag demo_world local_only
                              (lit "vectors") 5 true None [])) = true)
    by (vm_compute; reflexivity).
  revert Hok.
  destruct (@ApiHandlers.query_rag demo_world local_only (lit "vectors") 5 true
              None []) as [[response|e] h'] eqn:Hrun;
    [intros _ | discriminate].
  exists response, h'. split; [reflexivity|].
  exact (@query_rag_sources_without_text demo_world local_only (lit "vectors")
           5 true None [] h' response Hrun).
Defined.

(** In the demonstration world the two sources come back with their
    scores and without their texts. *)
Example query_rag_demo :
  match fst (@ApiHandlers.query_rag demo_world local_only (lit "vectors") 5 true
               None []) with
  | Ok response =>
      match response !! "sources" with
      | Some (VList sources) =>
          map (fun s => (get_text s, score_of s)) sources
      | _ => []
      end
  | Err _ => []
  end = [(Some [], VFloat 0.95); (Some [], VFloat 0.5)].
Proof. vm_compute. reflexivity. Qed.

(** ** Summaries *)

(** Every call of [call_llm] reaches a provider. *)
Lemma call_llm_first_call `{World} (cfg : Config.t) (prompt : str)
    (h : list event) :
  exists p evs, snd (Rag.call_llm cfg prompt h) = h ++ Ev (LLM p prompt) :: evs.
Proof.
  unfold Rag.call_llm, try_catch.
  destruct (Config.USE_OPENAI cfg).
  - rewrite call_openai_llm_run.
    destruct (respond str h (LLM OpenAI prompt)); [now exists OpenAI, []|].
    destruct (Config.USE_GROQ cfg).
    + rewrite call_groq_llm_run.
      destruct (respond str _ (LLM Groq prompt)).
      * exists OpenAI, [Ev (LLM Groq prompt)]. now rewrite <- app_assoc.
      * rewrite call_local_llm_run.
        exists OpenAI, [Ev (LLM Groq prompt); Ev (LLM LocalLLM prompt)].
        cbn [snd]. now rewrite <- !app_assoc.
    + rewrite call_local_llm_run.
      exists OpenAI, [Ev (LLM LocalLLM prompt)]. cbn [snd].
      now rewrite <- app_assoc.
  - destruct (Config.USE_GROQ cfg).
    + rewrite call_groq_llm_run.
      destruct (respond str h (LLM Groq prompt)); [now exists Groq, []|].
      rewrite call_local_llm_run.
      exists Groq, [Ev (LLM LocalLLM prompt)]. cbn [snd].
      now rewrite <- app_assoc.
    + rewrite call_local_llm_run. now exists LocalLLM, [].
Qed.

Lemma join_values_nil_inv (sep : str) (h h' : list event) (s : str) :
  join_values sep [] h = (Ok s, h') -> s = [].
Proof. now intros [<- _]%ret_ok_inv. Qed.

(** X14. [summarize_topic] has no short cut for an empty retrieval:
    whenever it returns it has put its prompt to an LLM provider, also
    when no chunk was retrieved, in which case the context of the
    prompt is empty; the [chunk_count] it reports is the number of
    chunks retrieved. *)
Theorem summarize_topic_always_asks `{World} (cfg : Config.t) (topic : str)
    (top_k max_length : Z) (filters : option dict) (h h' : list event)
    (response : dict) :
  ApiHandlers.summarize_topic cfg topic top_k max_length filters h
  = (Ok response, h') ->
  exists context_results h1 context_text p before after,
    search_retrieval topic top_k filters (h ++ [Ev Time; Ev Time])
    = (Ok context_results, h1) /\
    response !! "chunk_count" = Some (VInt (len context_results)) /\
    h' = before
         ++ Ev (LLM p (ApiHandlers.summary_prompt topic max_length context_text))
         :: after /\
    (context_results = [] -> context_text = []).
Proof.
  unfold ApiHandlers.summarize_topic. intros Hrun.
  apply bind_ok_inv in Hrun as (t0 & h1 & [-> _]%perform_ok_inv & Hrun).
  apply bind_ok_inv in Hrun as (t1 & h2 & [-> _]%perform_ok_inv & Hrun).
  apply bind_ok_inv in Hrun as (context_results & h3 & Hretrieve & Hrun).
  apply bind_ok_inv in Hrun as (t2 & h4 & [-> _]%perform_ok_inv & Hrun).
  apply bind_ok_inv in Hrun as (context_text & h5 & Hjoin & Hrun).
  apply bind_ok_inv in Hrun as (t3 & h6 & [-> _]%perform_ok_inv & Hrun).
  apply bind_ok_inv in Hrun as (summary & h7 & Hllm & Hrun).
  apply bind_ok_inv in Hrun as (t4 & h8 & [-> _]%perform_ok_inv & Hrun).
  apply bind_ok_inv in Hrun as (t5 & h9 & [-> _]%perform_ok_inv & Hrun).
  apply ret_ok_inv in Hrun as [<- <-].
  destruct (call_llm_first_call cfg
              (ApiHandlers.summary_prompt topic max_length context_text)
              (h5 ++ [Ev Time])) as (p & evs & Hcall).
  rewrite Hllm in Hcall. cbn [snd] in Hcall. subst h7.
  exists context_results, h3, context_text, p, (h5 ++ [Ev Time]),
    (evs ++ [Ev Time; Ev Time]).
  split; [|split; [reflexivity|split]].
  - unfold search_retrieval. rewrite <- Hretrieve.
    now rewrite <- app_assoc.
  - now rewrite <- !app_assoc.
  - intros ->. exact (join_values_nil_inv _ _ _ _ Hjoin).
Qed.

Lemma summarize_topic_always_asks_witness :
  exists response h',
    @ApiHandlers.summarize_topic empty_store_world local_only (lit "indexes")
      10 500 None []
    = (Ok response, h') /\
    exists context_results h1 context_text p before after,
      @search_retrieval empty_store_world (lit "indexes") 10 None
        ([] ++ [Ev Time; Ev Time])
      = (Ok context_results, h1) /\
      response !! "chunk_count" = Some (VInt (len context_results)) /\
      h' = before
           ++ Ev (LLM p (ApiHandlers.summary_prompt (lit "indexes") 500
                           context_text))
           :: after /\
      (context_results = [] -> context_text = []).
Proof.
  assert (Hok : is_ok (fst (@ApiHandlers.summarize_topic empty_store_world
                              local_only (lit "indexes") 10 500 None []))
                = true) by (vm_compute; reflexivity).
  revert Hok.
  destruct (@ApiHandlers.summarize_topic empty_store_world local_only
              (lit "indexes") 10 500 None []) as [[response|e] h'] eqn:Hrun;
    [intros _ | discriminate].
  exists response, h'. split; [reflexivity|].
  exact (@summarize_topic_always_asks empty_store_world local_only
           (lit "indexes") 10 500 None [] h' response Hrun).
Defined.

(** With an empty store the summary is asked for all the same, and
    [generate_answer] asks nothing. *)
Example empty_store_demo :
  (match fst (@ApiHandlers.summarize_topic empty_store_world local_only
                (lit "indexes") 10 500 None []) with
   | Ok response => response !! "chunk_count"
   | Err _ => None
   end = Some (VInt 0)) /\
  List.filter is_llm
    (snd (@ApiHandlers.summarize_topic empty_store_world local_only
            (lit "indexes") 10 500 None []))
  = [Ev (LLM LocalLLM (ApiHandlers.summary_prompt (lit "indexes") 500 []))] /\
  List.filter is_llm
    (snd (@Rag.generate_answer empty_store_world local_only (lit "indexes")
            None None None true []))
  = [].
Proof. repeat split; vm_compute; reflexivity. Qed.

(** ** A top hit without similarity *)

(** X15. [retrieve_context] fails on results it has already formatted
    when the first hit of the store carries no similarity: the log line
    on the top result formats its similarity with [.4f], and formatting
    [None] raises [TypeError]; the exception leaves [retrieve_context],
    after the store has been queried. *)
Theorem retrieve_context_top_hit_without_similarity `{World} (query : str)
    (top_k ef : option Z) (index_name : option str) (h h1 h2 : list event)
    (x : float) (v : list float) (index : handle) (d : dict)
    (rest : list pyval) :
  let search :=
    Query index (x :: v) (default Config.DEFAULT_TOP_K top_k)
      (default Config.DEFAULT_EF ef) None in
  Embed.embed_query query h = (Ok (x :: v), h1) ->
  Store.initialize_endee_index
    (Some (default Config.ENDEE_INDEX_NAME index_name)) h1 = (Ok index, h2) ->
  respond _ h2 search = Ok (VDict d :: rest) ->
  Forall readable_hit (VDict d :: rest) ->
  d !! "similarity" = None ->
  exists e,
    Retrieve.retrieve_context query top_k ef index_name h
    = (Err e, h2 ++ [Ev search]) /\
    exn_type e = "TypeError"%string.
Proof.
  intros search Hembed Hinit Hsearch Hraw Hsim.
  unfold Retrieve.retrieve_context. rewrite try_catch_raise.
  unfold bind at 1. rewrite Hembed.
  unfold bind at 1. rewrite Hinit.
  unfold bind at 1, perform at 1. fold search. rewrite Hsearch.
  assert (exists formatted,
             Retrieve.format_results (VDict d :: rest) (h2 ++ [Ev search])
             = (Ok formatted, h2 ++ [Ev search]) /\
             Forall2 formats_to (VDict d :: rest) formatted)
    as (formatted & Hformat & Hshape).
  { apply map_M_pure. eapply Forall_impl; [exact Hraw|].
    intros r (d0 & m0 & -> & Hmeta). exact (format_result_run d0 m0 _ Hmeta). }
  unfold bind at 1. rewrite Hformat.
  inversion Hshape as [|r f raw' fs Hfirst Hrest Heq1 Heq2]. subst.
  destruct Hfirst as (d' & m & [= <-] & _ & _ & _ & Hf & _).
  unfold get in Hf. rewrite Hsim in Hf.
  unfold bind. cbn [getitem]. rewrite Hf.
  eexists. split; reflexivity.
Qed.

Lemma retrieve_context_top_hit_without_similarity_witness :
  let d : dict :=
    {[ "id" := VStr (lit "doc_0");
       "meta" := VDict {[ "text" := VStr (lit "An index is created once.") ]} ]} in
  let search := Query 7%nat [1%float; 0%float] 5 128 None in
  let h2 :=
    [Ev (Encode (lit "index")); Ev ListIndexes;
     Ev (GetIndex Config.ENDEE_INDEX_NAME); Ev (Describe 7%nat)] in
  exists e,
    @Retrieve.retrieve_context bare_hit_world (lit "index") None None None []
    = (Err e, h2 ++ [Ev search]) /\
    exn_type e = "TypeError"%string.
Proof.
  intros d search h2.
  assert (Hraw : Forall readable_hit [VDict d]).
  { repeat constructor. exists d, {[ "text" := VStr (lit "An index is created once.") ]}.
    split; reflexivity. }
  exact (@retrieve_context_top_hit_without_similarity bare_hit_world
           (lit "index") None None None [] [Ev (Encode (lit "index"))] h2
           1%float [0%float] 7%nat d [] eq_refl eq_refl eq_refl Hraw eq_refl).
Defined.

(** ** What a search never does *)

Lemma filter_by_threshold_pure (P : event -> Prop) (threshold : float)
    (context_results : list dict) :
  adds_only P (ApiHandlers.filter_by_threshold threshold context_results).
Proof.
  induction context_results as [|ctx rest IH];
    cbn [ApiHandlers.filter_by_threshold]; [apply adds_only_ret|].
  apply adds_only_bind; [apply adds_only_ge_float|]. intros keep.
  apply adds_only_bind; [exact IH|]. intros results. apply adds_only_ret.
Qed.

(** X16. [search_semantic] never calls an LLM provider and never
    upserts anything, whatever the query, the threshold, the filters
    and the answers of the store. *)
Theorem search_semantic_no_llm_no_upsert `{World} (query : str) (top_k : Z)
    (threshold : float) (filters : option dict) :
  adds_only (fun e => search_event e = true)
    (ApiHandlers.search_semantic query top_k threshold filters).
Proof.
  unfold ApiHandlers.search_semantic.
  apply adds_only_bind; [apply adds_only_perform; reflexivity|]. intros t0.
  apply adds_only_bind.
  { destruct (ApiHandlers.has_filters filters).
    - unfold Retrieve.retrieve_with_filter, Embed.embed_query,
        Store.initialize_endee_index, Retrieve.format_results,
        Retrieve.format_result.
      adds_only_tac.
    - unfold Retrieve.retrieve_context, Embed.embed_query,
        Store.initialize_endee_index, Retrieve.format_results,
        Retrieve.format_result.
      adds_only_tac. }
  intros context_results.
  apply adds_only_bind; [apply filter_by_threshold_pure|]. intros results.
  adds_only_tac.
Qed.

(** ** Searching with numeric similarities *)







(** In the demonstration world, whose store answers with similarities
    0.95 and 0.5, a threshold of 0.9 keeps one result. *)
Example search_semantic_demo :
  match fst (@ApiHandlers.search_semantic demo_world (lit "vectors") 10 0.9
               None []) with
  | Ok response => response !! "total"
  | Err _ => None
  end = Some (VInt 1).
Proof. vm_compute. reflexivity. Qed.

(** ** How long a chunk of the API path can be *)

Lemma lstrip_trailing_space (body : str) :
  lstrip (body ++ [" "%char]) = [] \/
  exists body', lstrip (body ++ [" "%char]) = body' ++ [" "%char]
                /\ (length body' <= length body)%nat.
Proof.
  induction body as [|c body IH]; [now left|].
  cbn [app lstrip]. destruct (is_space c).
  - destruct IH as [IH|(body' & IH & Hlen)]; [now left|].
    right. exists body'. split; [exact IH | cbn; lia].
  - right. exists (c :: body). split; [reflexivity | lia].
Qed.

(** Trimming removes at least a space at the end. *)
Lemma len_strip_trailing_space (body : str) :
  len (strip (body ++ [" "%char])) <= len body.
Proof.
  unfold strip.
  destruct (lstrip_trailing_space body) as [->|(body' & -> & Hlen)].
  - pose proof (len_nonneg body). exact H.
  - unfold rstrip, len. rewrite length_rev, rev_app_distr. cbn [rev app lstrip].
    change (is_space " "%char) with true. cbv iota.
    pose proof (length_lstrip_le (rev body')) as Hl.
    rewrite length_rev in Hl. lia.
Qed.

Lemma add_sentence_within_bound (max_chunk_size bound : Z)
    (st : list str * str) (sentence : str) :
  max_chunk_size <= bound ->
  len (strip sentence) + 1 <= bound ->
  within_bound bound st ->
  within_bound bound (ApiHandlers.add_sentence max_chunk_size st sentence).
Proof.
  intros Hmax Hsentence [Hchunks Hcurrent]. destruct st as [chunks current].
  cbn [fst snd] in *. unfold ApiHandlers.add_sentence.
  destruct (strip sentence) as [|c s] eqn:Hs; [now split|].
  rewrite <- Hs in *.
  change (lit ". ") with ("."%char :: [" "%char]).
  destruct (Z.ltb_spec (len current + len (strip sentence)) max_chunk_size)
    as [Hfits|Hfull].
  - split; [exact Hchunks|]. right. cbn [snd].
    exists (current ++ strip sentence ++ ["."%char]). split.
    + now rewrite <- !app_assoc.
    + rewrite !len_app. change (len ["."%char]) with 1. lia.
  - split.
    + cbn [fst]. destruct current as [|c0 current0] eqn:Hc; [exact Hchunks|].
      rewrite <- Hc in *. apply Forall_app. split; [exact Hchunks|].
      constructor; [|constructor].
      destruct Hcurrent as [Hnil|(body & -> & Hbody)]; [congruence|].
      pose proof (len_strip_trailing_space body). lia.
    + right. cbn [snd]. exists (strip sentence ++ ["."%char]). split.
      * now rewrite <- app_assoc.
      * rewrite len_app. change (len ["."%char]) with 1. lia.
Qed.

Lemma fold_add_sentence_within_bound (max_chunk_size bound : Z)
    (sentences : list str) (st : list str * str) :
  max_chunk_size <= bound ->
  Forall (fun s => len (strip s) + 1 <= bound) sentences ->
  within_bound bound st ->
  within_bound bound
    (fold_left (ApiHandlers.add_sentence max_chunk_size) sentences st).
Proof.
  intros Hmax Hs. revert st.
  induction Hs as [|s sentences Hone _ IH]; intros st Hst; cbn [fold_left];
    [exact Hst|].
  apply IH. now apply add_sentence_within_bound.
Qed.

(** X17. The chunker of the API path never cuts inside a sentence, so a
    chunk can be longer than [max_chunk_size] only as far as one
    sentence is: when every trimmed sentence, with its final period,
    fits in [bound], and [max_chunk_size <= bound], every chunk
    returned is at most [bound] characters long, unless the chunker
    fell back on returning the text as it came. *)
Theorem api_chunk_text_within_bound (text : str) (max_chunk_size bound : Z) :
  max_chunk_size <= bound ->
  Forall (fun s => len (strip s) + 1 <= bound) (sentences_of text) ->
  ApiHandlers.chunk_text text max_chunk_size = [text] \/
  Forall (fun c => len c <= bound) (ApiHandlers.chunk_text text max_chunk_size).
Proof.
  intros Hmax Hsentences.
  pose proof (fold_add_sentence_within_bound max_chunk_size bound
                (sentences_of text) ([], []) Hmax Hsentences) as Hfold.
  unfold ApiHandlers.chunk_text. fold (sentences_of text).
  destruct (fold_left _ _ _) as [chunks current].
  destruct Hfold as [Hchunks Hcurrent].
  { split; [constructor | now left]. }
  cbn [fst snd] in *.
  destruct current as [|c0 current0] eqn:Hc.
  - destruct chunks; [now left | now right].
  - rewrite <- Hc in *. right.
    assert (Forall (fun c => len c <= bound) (chunks ++ [strip current])) as Hall.
    { apply Forall_app. split; [exact Hchunks|].
      constructor; [|constructor].
      destruct Hcurrent as [Hnil|(body & -> & Hbody)]; [congruence|].
      pose proof (len_strip_trailing_space body). lia. }
    destruct (chunks ++ [strip current]) eqn:E; [|exact Hall].
    now apply app_singleton_not_nil in E.
Qed.

Lemma api_chunk_text_within_bound_witness :
  let text := lit "Short one. A much longer sentence follows here. End." in
  10 <= 37 /\
  Forall (fun s => len (strip s) + 1 <= 37) (sentences_of text) /\
  (ApiHandlers.chunk_text text 10 = [text] \/
   Forall (fun c => len c <= 37) (ApiHandlers.chunk_text text 10)).
Proof.
  intros text.
  assert (Hmax : 10 <= 37) by lia.
  assert (Hs : Forall (fun s => len (strip s) + 1 <= 37) (sentences_of text)).
  { vm_compute. repeat constructor; discriminate. }
  split; [exact Hmax|]. split; [exact Hs|].
  exact (api_chunk_text_within_bound text 10 37 Hmax Hs).
Defined.

(** ** Chunks of a text without white space *)

Lemma starts_with_In (sub s : str) (c : ascii) :
  starts_with sub s = true -> In c sub -> In c s.
Proof.
  revert s. induction sub as [|a sub IH]; intros s; [contradiction|].
  destruct s as [|b s]; cbn [starts_with]; [discriminate|].
  intros [Hab Hrest]%andb_prop [<-|Hin].
  - apply Ascii.eqb_eq in Hab. now left.
  - right. now apply IH.
Qed.

Lemma In_drop {A} (n : nat) (l : list A) (x : A) : In x (drop n l) -> In x l.
Proof.
  intros Hin. rewrite <- (take_drop n l). apply in_or_app. now right.
Qed.

Lemma rfind_from_absent (sub s : str) (lo k : nat) (c : ascii) :
  In c sub -> ~ In c s -> rfind_from sub s lo k = -1.
Proof.
  intros Hsub Hs. induction k as [|k IH]; [reflexivity|].
  cbn [rfind_from]. unfold occurs_at.
  destruct (starts_with sub (drop (lo + k) s)) eqn:Hocc; [|exact IH].
  exfalso. apply Hs. eapply In_drop, starts_with_In; eauto.
Qed.

(** A string with a character the text does not hold is not found. *)
Lemma rfind_absent (s sub : str) (i j : Z) (c : ascii) :
  In c sub -> ~ In c s -> rfind s sub i j = -1.
Proof.
  intros Hsub Hs. unfold rfind.
  destruct (_ <? _); [reflexivity|]. now apply (rfind_from_absent _ _ _ _ c).
Qed.

Lemma no_space_not_In (text : str) (c : ascii) :
  no_space text -> is_space c = true -> ~ In c text.
Proof.
  intros Htext Hc Hin%list_elem_of_In.
  apply (proj1 (Forall_forall _ _) Htext) in Hin. congruence.
Qed.

Lemma adjust_end_no_space (text : str) (chunk_size start : Z) :
  no_space text ->
  Ingest.adjust_end text chunk_size start = start + chunk_size.
Proof.
  intros Htext. unfold Ingest.adjust_end.
  destruct (_ <? _); [|reflexivity].
  assert (forall sub c lo hi,
             In c sub -> is_space c = true -> rfind text sub lo hi = -1)
    as Habsent.
  { intros sub c lo hi Hsub Hc.
    apply (rfind_absent _ _ _ _ c Hsub). now apply no_space_not_In. }
  unfold Ingest.boundary_chars. cbn [Ingest.find_boundary].
  rewrite (Habsent (lit ". ") " "%char) by (cbn; auto).
  rewrite (Habsent (lit "! ") " "%char) by (cbn; auto).
  rewrite (Habsent (lit "? ") " "%char) by (cbn; auto).
  rewrite (Habsent [ascii_of_nat 10; ascii_of_nat 10] (ascii_of_nat 10))
    by (cbn; auto).
  rewrite (Habsent (lit " ") " "%char) by (cbn; auto).
  reflexivity.
Qed.

Lemma lstrip_no_space (s : str) : no_space s -> lstrip s = s.
Proof. intros Hs. destruct Hs as [|c s Hc _]; cbn; [|rewrite Hc]; reflexivity. Qed.

Lemma strip_no_space (s : str) : no_space s -> strip s = s.
Proof.
  intros Hs. unfold strip, rstrip. rewrite (lstrip_no_space s Hs).
  rewrite lstrip_no_space; [apply rev_involutive|].
  unfold no_space. now apply Forall_rev.
Qed.

Lemma chunk_step_no_space (text : str) (chunk_size : Z) (chunks : list str)
    (start : Z) :
  no_space text -> 0 < chunk_size -> 0 <= start < len text ->
  Ingest.chunk_step text chunk_size 0 (chunks, start)
  = (chunks ++ [take (Z.to_nat chunk_size) (drop (Z.to_nat start) text)],
     start + chunk_size).
Proof.
  intros Htext Hcs Hstart. unfold Ingest.chunk_step.
  rewrite adjust_end_no_space by assumption.
  rewrite slice_nonneg by lia.
  replace (Z.to_nat (start + chunk_size - start)) with (Z.to_nat chunk_size)
    by lia.
  set (piece := take (Z.to_nat chunk_size) (drop (Z.to_nat start) text)).
  assert (no_space piece) as Hpiece.
  { unfold no_space, piece. now apply Forall_take, Forall_drop. }
  rewrite (strip_no_space piece Hpiece).
  assert (piece <> []) as Hne.
  { intros Hnil. apply (f_equal (@length ascii)) in Hnil.
    unfold piece in Hnil. rewrite length_take, length_drop in Hnil.
    unfold len in Hstart. cbn in Hnil. lia. }
  destruct piece as [|c piece'] eqn:Hp; [contradiction|]. rewrite <- Hp.
  destruct (chunks ++ [piece]) as [|c0 l0] eqn:E.
  { now apply app_singleton_not_nil in E. }
  rewrite <- E. f_equal. rewrite Z.sub_0_r.
  match goal with |- (if ?g then _ else _) = _ => now destruct g end.
Qed.

Lemma chunk_loop_no_space (fuel : nat) (text : str) (chunk_size : Z)
    (chunks : list str) (start : Z) :
  no_space text -> 0 < chunk_size -> 0 <= start ->
  concat chunks = take (Z.to_nat start) text ->
  (Z.to_nat (len text - start) <= fuel)%nat ->
  exists result,
    Ingest.chunk_loop fuel text chunk_size 0 (chunks, start) = Some result /\
    concat result = text.
Proof.
  intros Htext Hcs. revert chunks start.
  induction fuel as [|fuel IH]; intros chunks start Hstart Hconcat Hfuel;
    rewrite chunk_loop_eq; cbn [fst snd];
    destruct (Z.ltb_spec start (len text)) as [Hin|Hout]; try lia.
  - exists chunks. split; [reflexivity|]. rewrite Hconcat.
    apply take_ge. unfold len in Hout. lia.
  - rewrite chunk_step_no_space by (assumption || lia).
    apply IH; try lia.
    rewrite concat_app, Hconcat. cbn [concat]. rewrite app_nil_r.
    rewrite take_take_drop. f_equal. lia.
  - exists chunks. split; [reflexivity|]. rewrite Hconcat.
    apply take_ge. unfold len in Hout. lia.
Qed.

(** X18. For a text without any white space, cut with a positive chunk
    size and no overlap, [chunk_text] returns, and the chunks put end
    to end are the text: nothing is lost or repeated. *)
Theorem chunk_text_reconstructs (fuel : nat) (text : str) (chunk_size : Z) :
  no_space text -> 0 < chunk_size -> (length text <= fuel)%nat ->
  exists chunks,
    Ingest.chunk_text fuel text chunk_size 0 = Some chunks /\
    concat chunks = text.
Proof.
  intros Htext Hcs Hfuel.
  destruct text as [|c rest] eqn:E.
  - exists []. split; reflexivity.
  - rewrite <- E in *.
    rewrite chunk_text_nonempty by (rewrite E; discriminate).
    apply chunk_loop_no_space; try assumption; try lia.
    + reflexivity.
    + unfold len. lia.
Qed.

Lemma chunk_text_reconstructs_witness :
  no_space (lit "abcdefghijklmnopqrstuvwxyz") /\ 0 < 10 /\
  (length (lit "abcdefghijklmnopqrstuvwxyz") <= 26)%nat /\
  exists chunks,
    Ingest.chunk_text 26 (lit "abcdefghijklmnopqrstuvwxyz") 10 0 = Some chunks /\
    concat chunks = lit "abcdefghijklmnopqrstuvwxyz".
Proof.
  assert (H1 : no_space (lit "abcdefghijklmnopqrstuvwxyz"))
    by (repeat constructor).
  assert (H2 : 0 < 10) by lia.
  assert (H3 : (length (lit "abcdefghijklmnopqrstuvwxyz") <= 26)%nat)
    by (vm_compute; lia).
  repeat split; try assumption.
  exact (chunk_text_reconstructs 26 (lit "abcdefghijklmnopqrstuvwxyz") 10
           H1 H2 H3).
Defined.

(** ** Empty and blank inputs, end to end *)

(** X19. On an empty or blank query [generate_answer] returns the fixed
    answer, with no source and [num_chunks = 0], and makes no call at
    all: not to the embedding model, not to the vector store, not to an
    LLM provider. *)
Theorem generate_answer_blank_query `{World} (cfg : Config.t) (query : str)
    (top_k ef : option Z) (index_name : option str) (include_sources : bool)
    (h : list event) :
  forallb is_space query = true ->
  Rag.generate_answer cfg query top_k ef index_name include_sources h
  = (Ok no_context_response, h).
Proof.
  intros Hblank. unfold Rag.generate_answer. rewrite try_catch_raise.
  unfold bind. now rewrite (retrieve_context_blank_query query _ _ _ h Hblank).
Qed.

Lemma generate_answer_blank_query_witness :
  forallb is_space (lit " ") = true /\
  @Rag.generate_answer demo_world local_only (lit " ") None None None true []
  = (Ok no_context_response, []).
Proof.
  split; [reflexivity|].
  exact (@generate_answer_blank_query demo_world local_only (lit " ")
           None None None true [] eq_refl).
Defined.

(** X20. Ingesting an empty or blank text does write to the store:
    whenever [ingest_document] returns for such a text, it has upserted
    exactly one record, whose vector is empty, the embedding model not
    having been called; the [chunk_count] reported is 1. *)
Theorem ingest_document_blank_text `{World} (text : str)
    (source : option str) (tags : option (list str)) (metadata : option dict)
    (h h' : list event) (response : dict) :
  forallb is_space text = true ->
  ApiHandlers.ingest_document text source tags metadata h = (Ok response, h') ->
  exists fields,
    upserts h' = upserts h ++ [[VDict fields]] /\
    fields !! "vector" = Some (VList []) /\
    response !! "chunk_count" = Some (VInt 1) /\
    Forall (fun e => match e with
                     | Ev c => match c with Encode _ => False | _ => True end
                     end) (drop (length h) h').
Proof.
  intros Hblank. unfold ApiHandlers.ingest_document.
  rewrite (api_chunk_text_blank text Config.CHUNK_SIZE Hblank).
  cbn [enumerate map_M]. intros Hrun.
  apply bind_ok_inv in Hrun as (t0 & h1 & [-> _]%perform_ok_inv & Hrun).
  apply bind_ok_inv in Hrun as (id & h2 & [-> _]%perform_ok_inv & Hrun).
  apply bind_ok_inv in Hrun as (index & h3 & Hinit & Hrun).
  apply bind_ok_inv in Hrun as (vectors & h4 & Hvectors & Hrun).
  apply bind_ok_inv in Hrun as ([] & h5 & [-> _]%perform_ok_inv & Hrun).
  apply bind_ok_inv in Hrun as (t1 & h6 & [-> _]%perform_ok_inv & Hrun).
  apply ret_ok_inv in Hrun as [<- <-].
  apply bind_ok_inv in Hvectors as (record & h7 & Hrecord & Hvectors).
  apply bind_ok_inv in Hvectors as (others & h8 & [<- <-]%ret_ok_inv & Hvectors).
  apply ret_ok_inv in Hvectors as [<- <-].
  unfold ApiHandlers.ingest_vector in Hrecord.
  rewrite (embed_query_blank text Hblank) in Hrecord.
  apply bind_ok_inv in Hrecord as (embedding & h9 & [<- <-]%ret_ok_inv & Hrecord).
  apply bind_ok_inv in Hrecord as (ts & h10 & [-> _]%perform_ok_inv & Hrecord).
  apply ret_ok_inv in Hrecord as [<- <-].
  pose proof (upserts_unchanged _ _ _ _
                (initialize_endee_index_no_upsert _) Hinit) as Hup3.
  assert (adds_only (fun e => match e with
                              | Ev c => match c with
                                        | Encode _ => False
                                        | _ => True
                                        end
                              end)
            (Store.initialize_endee_index (Some (lit "rag_documents"))))
    as Hno_encode.
  { unfold Store.initialize_endee_index. adds_only_tac. }
  destruct (Hno_encode ((h ++ [Ev Time]) ++ [Ev Uuid4])) as (evs & Hh3 & Hevs).
  rewrite Hinit in Hh3. cbn [snd] in Hh3. subst h3.
  eexists. split.
  { rewrite !upserts_app in *. rewrite Hup3. cbn. now rewrite !app_nil_r. }
  split; [reflexivity|]. split; [reflexivity|].
  rewrite <- !app_assoc. rewrite drop_app_length.
  repeat (apply Forall_cons; split; [exact I|]).
  apply Forall_app. split; [exact Hevs|].
  repeat (apply Forall_cons; split; [exact I|]). constructor.
Qed.

Lemma ingest_document_blank_text_witness :
  forallb is_space (lit " ") = true /\
  exists response h',
    @ApiHandlers.ingest_document demo_world (lit " ") None None None []
    = (Ok response, h') /\
    exists fields,
      upserts h' = upserts [] ++ [[VDict fields]] /\
      fields !! "vector" = Some (VList []) /\
      response !! "chunk_count" = Some (VInt 1) /\
      Forall (fun e => match e with
                       | Ev c => match c with Encode _ => False | _ => True end
                       end) (drop (length (@nil event)) h').
Proof.
  split; [reflexivity|].
  assert (Hok : is_ok (fst (@ApiHandlers.ingest_document demo_world (lit " ")
                              None None None [])) = true)
    by (vm_compute; reflexivity).
  revert Hok.
  destruct (@ApiHandlers.ingest_document demo_world (lit " ") None None None [])
    as [[response|e] h'] eqn:Hrun; [intros _ | discriminate].
  exists response, h'. split; [reflexivity|].
  exact (@ingest_document_blank_text demo_world (lit " ") None None None []
           h' response eq_refl Hrun).
Defined.

(** ** Storing complete chunks *)

Lemma batch_upsert_for_each `{World} (index : handle) (vectors : list pyval)
    (batch_size : Z) (h : list event) :
  0 < batch_size ->
  Store.batch_upsert index vectors batch_size h
  = for_each (batches_of vectors batch_size)
      (fun b => try_catch (perform (Upsert index b)) raise) h.
Proof.
  intros Hsize. unfold Store.batch_upsert, batches_of.
  rewrite range_from_zero by (assumption || apply len_nonneg).
  unfold bind, lift.
  generalize (map (fun k => 0 + Z.of_nat k * batch_size)
                (seq 0 (Z.to_nat ((len vectors + batch_size - 1) / batch_size)))).
  intros starts. revert h.
  induction starts as [|i starts IH]; intros h; [reflexivity|].
  cbn [map for_each]. unfold bind.
  destruct (try_catch _ _ h) as [[[]|e] h1]; [apply IH | reflexivity].
Qed.

Lemma concat_batches_of {A} (vectors : list A) (batch_size : Z) :
  0 < batch_size -> concat (batches_of vectors batch_size) = vectors.
Proof.
  intros Hsize. unfold batches_of. rewrite concat_batches by assumption.
  apply take_ge.
  pose proof (batch_count_covers (len vectors) batch_size Hsize
                (len_nonneg vectors)).
  unfold len in *. nia.
Qed.

Lemma batches_of_small {A} (vectors : list A) (batch_size : Z) :
  0 < batch_size ->
  Forall (fun b => len b <= batch_size) (batches_of vectors batch_size).
Proof.
  intros Hsize. unfold batches_of. rewrite !Forall_map. apply Forall_forall.
  intros k _. cbn beta.
  assert (0 <= Z.of_nat k * batch_size) by nia.
  rewrite slice_nonneg by lia. unfold len. rewrite length_take. lia.
Qed.

Lemma upserts_of_batches (index : handle) (batches : list (list pyval)) :
  upserts (map (fun b => Ev (Upsert index b)) batches) = batches.
Proof.
  induction batches as [|b batches IH]; [reflexivity|].
  cbn [map]. change (upserts (Ev (Upsert index b) :: ?l)) with (b :: upserts l).
  now rewrite IH.
Qed.

Lemma getitem_ok_inv (d : dict) (key : string) (h h' : list event) (x : pyval) :
  getitem (VDict d) key h = (Ok x, h') -> d !! key = Some x.
Proof.
  cbn [getitem]. destruct (d !! key); [|discriminate].
  now intros [-> _]%ret_ok_inv.
Qed.

Lemma vector_obj_ok (chunk : pyval) (h h' : list event) (record : pyval) :
  Store.vector_obj chunk h = (Ok record, h') -> record_of chunk record.
Proof.
  unfold Store.vector_obj. intros Hrun.
  apply bind_ok_inv in Hrun as (id & h1 & Hid & Hrun).
  destruct chunk as [| | | | | |d]; try discriminate Hid.
  apply getitem_ok_inv in Hid.
  apply bind_ok_inv in Hrun as (embedding & h2 & Hemb%getitem_ok_inv & Hrun).
  repeat (apply bind_ok_inv in Hrun as (? & ? & _ & Hrun)).
  apply ret_ok_inv in Hrun as [<- _].
  exists d. eexists. split; [reflexivity|]. split; [reflexivity|].
  rewrite Hid, Hemb. split; reflexivity.
Qed.

(** X21. When every chunk carries the fields [store_embeddings] reads,
    the index can be initialised and the store accepts every upsert,
    [store_embeddings] succeeds, and what it has upserted, batch after
    batch, is one record per chunk, in the order of the chunks, each
    with the chunk's id and embedding; no batch holds more than 1000
    records. *)
Theorem store_embeddings_complete `{World} (chunks : list pyval)
    (index_name : option str) (h h1 : list event) (index : handle) :
  forallb storable_chunk chunks = true ->
  Store.initialize_endee_index index_name h = (Ok index, h1) ->
  (forall h' b, respond unit h' (Upsert index b) = Ok tt) ->
  exists records h2,
    Store.store_embeddings chunks index_name h = (Ok tt, h2) /\
    concat (upserts h2) = concat (upserts h) ++ records /\
    Forall2 record_of chunks records /\
    Forall (fun b => len b <= 1000) (drop (length (upserts h)) (upserts h2)).
Proof.
  intros Hchunks Hinit Haccept.
  destruct (map_M_vector_obj_run chunks h1) as (r & Hr & Hok).
  rewrite Hchunks in Hok. destruct r as [records|e]; [|discriminate].
  pose proof (upserts_unchanged _ _ _ _
                (initialize_endee_index_no_upsert index_name) Hinit) as Hup.
  pose proof (for_each_perform (fun b => Upsert index b)
                (batches_of records 1000) h1) as Hloop.
  cbv zeta in Hloop. destruct Hloop as (issued & _ & Hh & Hall & Hsucc).
  specialize (Hsucc Haccept). specialize (Hall Hsucc). subst issued.
  exists records, (h1 ++ map (fun b => Ev (Upsert index b)) (batches_of records 1000)).
  split; [|split; [|split]].
  - unfold Store.store_embeddings, bind. rewrite Hinit, Hr.
    rewrite batch_upsert_for_each by lia.
    destruct (for_each _ _ h1) as [r h2]. cbn [fst snd] in *.
    now subst.
  - rewrite upserts_app, upserts_of_batches, Hup, concat_app.
    now rewrite concat_batches_of by lia.
  - apply (map_M_ok_Forall2 _ record_of _ _ _ _ ) in Hr; [exact Hr|].
    intros chunk h0 record h0'. apply vector_obj_ok.
  - rewrite upserts_app, upserts_of_batches, Hup, drop_app_length.
    apply batches_of_small. lia.
Qed.

Lemma store_embeddings_complete_witness :
  let chunks :=
    [VDict {[ "id" := VStr (lit "a"); "text" := VStr (lit "t");
              "embedding" := VList [VFloat 1];
              "metadata" := VDict {[ "source" := VStr (lit "s");
                                     "chunk_index" := VInt 0;
                                     "total_chunks" := VInt 1 ]} ]}] in
  let h1 := [Ev ListIndexes; Ev (GetIndex Config.ENDEE_INDEX_NAME);
             Ev (Describe 7%nat)] in
  forallb storable_chunk chunks = true /\
  @Store.initialize_endee_index demo_world None [] = (Ok 7%nat, h1) /\
  (forall h' b, @respond demo_world unit h' (Upsert 7%nat b) = Ok tt) /\
  exists records h2,
    @Store.store_embeddings demo_world chunks None [] = (Ok tt, h2) /\
    concat (upserts h2) = concat (upserts []) ++ records /\
    Forall2 record_of chunks records /\
    Forall (fun b => len b <= 1000)
      (drop (length (upserts [])) (upserts h2)).
Proof.
  intros chunks h1.
  assert (H1 : forallb storable_chunk chunks = true) by (vm_compute; reflexivity).
  assert (H2 : @Store.initialize_endee_index demo_world None [] = (Ok 7%nat, h1))
    by (vm_compute; reflexivity).
  assert (H3 : forall h' b, @respond demo_world unit h' (Upsert 7%nat b) = Ok tt)
    by reflexivity.
  split; [exact H1|]. split; [exact H2|]. split; [exact H3|].
  exact (@store_embeddings_complete demo_world chunks None [] h1 7%nat
           H1 H2 H3).
Defined.
